(** * EV battery SOH framework: the analytical core

    A shallow embedding of [dv_analyzer.py] (differential-voltage curve and
    degradation-mode detectors) and [soh_calculator.py] (capacity- and
    energy-based SOH), together with the library routines they call
    (numpy's [gradient], [convolve], [diff], [where]; scipy's [cumtrapz];
    the peak finder imported from peakutils).

    Numbers.  The arrays hold float64 samples.  The embedding computes
    with exact rationals and the three special values of the format: the
    two infinities, which numpy produces for a division by zero, and NaN,
    which [apply_voltage_window] writes itself.  This arithmetic has no
    rounding, no overflow and no sign of zero.  The theorems that speak
    of values therefore state an expression the code evaluates, or a
    fact that rounding does not change (a length, a position, the sign
    of an increment); where rounding or overflow decides a result, the
    lines concerned are embedded a second time, in module [F64], over
    binary64 numbers, and the result is evaluated or proved there.

    Exceptions.  Python exceptions are an explicit [Raise] outcome; a
    [try ... except Exception] block is [try_except]. *)

From Stdlib Require Import QArith Qcanon Lqa.
From Stdlib Require PrimFloat SpecFloat FloatOps FloatAxioms.
From stdpp Require Import base numbers list strings gmap sorting.

Local Open Scope Qc_scope.

(** ** Samples *)

Inductive num : Type :=
| Fin (q : Qc)
| PInf
| NInf
| NaN.

#[global] Instance num_eq_dec : EqDecision num.
Proof. solve_decision. Defined.

Definition qc (n : Z) (d : positive) : Qc := Q2Qc (n # d).
Definition of_Z (z : Z) : num := Fin (Q2Qc (inject_Z z)).
Definition fin (n : Z) (d : positive) : num := Fin (qc n d).

Module Num.

Definition is_nan (x : num) : bool :=
  match x with NaN => true | _ => false end.

Definition is_finite (x : num) : bool :=
  match x with Fin _ => true | _ => false end.

Definition neg (x : num) : num :=
  match x with
  | Fin q => Fin (- q)
  | PInf => NInf
  | NInf => PInf
  | NaN => NaN
  end.

Definition add (x y : num) : num :=
  match x, y with
  | NaN, _ | _, NaN => NaN
  | Fin a, Fin b => Fin (a + b)
  | PInf, NInf | NInf, PInf => NaN
  | PInf, _ | _, PInf => PInf
  | NInf, _ | _, NInf => NInf
  end.

(** IEEE subtraction is addition of the opposite. *)
Definition sub (x y : num) : num := add x (neg y).

(** The infinity of the sign of [q], NaN for [q = 0]. *)
Definition signed_inf (q : Qc) (pos : num) : num :=
  if bool_decide (0 < q) then pos
  else if bool_decide (q < 0) then neg pos
  else NaN.

Definition mul (x y : num) : num :=
  match x, y with
  | NaN, _ | _, NaN => NaN
  | Fin a, Fin b => Fin (a * b)
  | Fin a, PInf | PInf, Fin a => signed_inf a PInf
  | Fin a, NInf | NInf, Fin a => signed_inf a NInf
  | PInf, PInf | NInf, NInf => PInf
  | PInf, NInf | NInf, PInf => NInf
  end.

(** numpy does not raise on a zero divisor: [a / 0] is the infinity of
    the sign of [a], and [0 / 0] is NaN. *)
Definition div (x y : num) : num :=
  match x, y with
  | NaN, _ | _, NaN => NaN
  | Fin a, Fin b =>
      if bool_decide (b = 0) then signed_inf a PInf else Fin (a / b)
  | Fin _, (PInf | NInf) => Fin 0
  | PInf, Fin b => if bool_decide (b < 0) then NInf else PInf
  | NInf, Fin b => if bool_decide (b < 0) then PInf else NInf
  | (PInf | NInf), (PInf | NInf) => NaN
  end.

(** Comparisons: every comparison with NaN is false. *)
Definition ltb (x y : num) : bool :=
  match x, y with
  | NaN, _ | _, NaN => false
  | Fin a, Fin b => bool_decide (a < b)
  | NInf, NInf | PInf, _ | _, NInf => false
  | NInf, _ | _, PInf => true
  end.

Definition leb (x y : num) : bool :=
  match x, y with
  | NaN, _ | _, NaN => false
  | Fin a, Fin b => bool_decide (a <= b)
  | NInf, _ | _, PInf => true
  | PInf, _ | _, NInf => false
  end.

Definition eqb (x y : num) : bool :=
  match x, y with
  | Fin a, Fin b => bool_decide (a = b)
  | PInf, PInf | NInf, NInf => true
  | _, _ => false
  end.

Definition gtb (x y : num) : bool := ltb y x.
Definition geb (x y : num) : bool := leb y x.

(** The order numpy sorts by: the numeric order, with NaN last. *)
Definition sort_le (x y : num) : Prop :=
  match x, y with
  | _, NaN => True
  | NaN, _ => False
  | _, _ => leb x y = true
  end.

#[global] Instance sort_le_dec : RelDecision sort_le.
Proof. intros [] []; simpl; apply _. Defined.

(** numpy's [max] and [min] of two samples propagate NaN. *)
Definition max2 (x y : num) : num :=
  if is_nan x then NaN else if is_nan y then NaN
  else if ltb x y then y else x.

Definition min2 (x y : num) : num :=
  if is_nan x then NaN else if is_nan y then NaN
  else if ltb y x then y else x.

End Num.

Declare Scope num_scope.
Delimit Scope num_scope with num.
Bind Scope num_scope with num.
Infix "+" := Num.add : num_scope.
Infix "-" := Num.sub : num_scope.
Infix "*" := Num.mul : num_scope.
Infix "/" := Num.div : num_scope.
Notation "- x" := (Num.neg x) : num_scope.
Infix "<?" := Num.ltb : num_scope.
Infix "<=?" := Num.leb : num_scope.
Infix ">?" := Num.gtb : num_scope.
Infix ">=?" := Num.geb : num_scope.
Infix "=?" := Num.eqb : num_scope.

(** ** Exceptions *)

Inductive exn : Type :=
| ValueError
| TypeError
| IndexError
| KeyError
| AttributeError
| InvalidInputError.

#[global] Instance exn_eq_dec : EqDecision exn.
Proof. solve_decision. Defined.

Inductive result (A : Type) : Type :=
| Ok (a : A)
| Raise (e : exn).
Arguments Ok {A} a.
Arguments Raise {A} e.

#[global] Instance result_eq_dec {A} `{EqDecision A} : EqDecision (result A).
Proof. solve_decision. Defined.

#[global] Instance result_bind : MBind result :=
  fun A B (k : A -> result B) (r : result A) =>
    match r with
    | Ok a => k a
    | Raise e => Raise e
    end.

#[global] Instance result_ret : MRet result := fun A a => Ok a.

(** [try: body except Exception as e: handler]. *)
Definition try_except {A} (body : result A) (handler : exn -> result A)
  : result A :=
  match body with
  | Ok a => Ok a
  | Raise e => handler e
  end.

(** ** Arrays and the numpy routines the analyzers call *)

(** [a[i]] for an index known to be in range. *)
Definition at_ (a : list num) (i : nat) : num := nth i a NaN.
Notation "a @ i" := (at_ a i) (at level 20, i at next level).

Module np.

(** [np.diff(a)]: [a[i+1] - a[i]]. *)
Definition diff (a : list num) : list num :=
  zip_with (fun nxt cur => (nxt - cur)%num) (drop 1 a) a.

(** [np.gradient(f)] with unit spacing: central differences over two
    steps in the interior, one-sided first differences at both ends; an
    array of fewer than two samples is refused. *)
Definition gradient (f : list num) : result (list num) :=
  let n := length f in
  if bool_decide (n < 2)%nat then Raise ValueError
  else Ok ((fun i : nat =>
              if bool_decide (i = 0)%nat then ((f @ 1 - f @ 0) / of_Z 1)%num
              else if bool_decide (i = n - 1)%nat
                   then ((f @ (n - 1) - f @ (n - 2)) / of_Z 1)%num
                   else ((f @ (i + 1) - f @ (i - 1)) / of_Z 2)%num)
           <$> seq 0 n).

(** Elementwise [a / b] of two arrays of one shape. *)
Definition divide (a b : list num) : result (list num) :=
  if bool_decide (length a = length b) then Ok (zip_with Num.div a b)
  else Raise ValueError.

(** [np.ones(n)]: a negative dimension is refused. *)
Definition ones (n : Z) : result (list num) :=
  if bool_decide (n < 0)%Z then Raise ValueError
  else Ok (replicate (Z.to_nat n) (of_Z 1)).

(** Sum of the products of two equally long runs. *)
Definition dot (a v : list num) : num :=
  foldl Num.add (of_Z 0) (zip_with Num.mul a v).

(** [np.convolve(a, v, mode='valid')]: the shorter array slides over the
    longer one (the arguments are swapped when [v] is the longer), only
    positions of full overlap are kept, and an empty argument is refused. *)
Definition convolve_valid (a v : list num) : result (list num) :=
  let '(a, v) := if bool_decide (length a < length v)%nat then (v, a)
                 else (a, v) in
  if bool_decide (length a = 0)%nat then Raise ValueError
  else if bool_decide (length v = 0)%nat then Raise ValueError
  else Ok ((fun k => dot (take (length v) (drop k a)) (reverse v))
           <$> seq 0 (length a - length v + 1)).

(** [np.max] and [np.min]: no value for an empty array. *)
Definition max (a : list num) : result num :=
  match a with
  | [] => Raise ValueError
  | x :: l => Ok (foldl Num.max2 x l)
  end.

Definition min (a : list num) : result num :=
  match a with
  | [] => Raise ValueError
  | x :: l => Ok (foldl Num.min2 x l)
  end.

(** [np.where(mask)[0]]: the positions at which the mask holds. *)
Definition where_ (mask : list bool) : list nat :=
  filter (fun i => nth i mask false = true) (seq 0 (length mask)).

(** [np.argsort(keys)]: positions in ascending order of their key, NaN
    last.  numpy does not fix the order of equal keys for its default
    sort; its scalar implementation sorts a short array by insertion,
    which leaves equal keys in position order, and that is the order
    taken here: each position is inserted behind every position whose
    key is not greater. *)
Definition key_le (keys : list num) (p q : nat) : Prop :=
  Num.sort_le (keys @ p) (keys @ q).

#[global] Instance key_le_dec keys : RelDecision (key_le keys).
Proof. intros p q. unfold key_le. apply _. Defined.

Fixpoint insert_position (keys : list num) (p : nat) (sorted : list nat)
  : list nat :=
  match sorted with
  | [] => [p]
  | q :: rest =>
      if decide (key_le keys q p) then q :: insert_position keys p rest
      else p :: q :: rest
  end.

Definition argsort (keys : list num) : list nat :=
  foldl (fun sorted p => insert_position keys p sorted) []
        (seq 0 (length keys)).

End np.

(** ** The peak finder

    [dv_analyzer.py] imports its peak finder from peakutils as [indices]
    and calls it as [indices(y, thres=..., min_dist=...)].  It is modelled
    on that package's peak finder ([peakutils.peak.indexes], which has
    these parameters): [thres] is a threshold normalised to the range of
    [y], flat stretches are resolved towards their neighbours, and peaks
    within [min_dist] of a higher peak are suppressed, highest first. *)

Module peakutils.

(** First position of the run of flat steps that contains step [i]. *)
Fixpoint run_start (flat : list bool) (i : nat) : nat :=
  match i with
  | O => O
  | S j => if nth j flat false then run_start flat j else S j
  end.

(** Last position of that run. *)
Fixpoint run_end_from (flat : list bool) (fuel i : nat) : nat :=
  match fuel with
  | O => i
  | S fuel' =>
      if nth (S i) flat false then run_end_from flat fuel' (S i) else i
  end.

Definition run_end (flat : list bool) (i : nat) : nat :=
  run_end_from flat (length flat) i.

(** The plateau step: every zero of [dy] takes the value of a non-zero
    neighbour of its run: the right neighbour for a run at the left end,
    the left neighbour for a run at the right end, and for a run in the
    middle the left neighbour before the run's median position and the
    right neighbour from it on. *)
Definition fill_plateaus (dy : list num) : list num :=
  let flat := (fun d => (d =? of_Z 0)%num) <$> dy in
  imap (fun i d =>
          if (d =? of_Z 0)%num then
            let a := run_start flat i in
            let b := run_end flat i in
            if bool_decide (a = 0)%nat then dy @ (b + 1)
            else if bool_decide (b = length dy - 1)%nat then dy @ (a - 1)
            else if bool_decide (2 * i < a + b)%nat then dy @ (a - 1)
                 else dy @ (b + 1)
          else d) dy.

(** [rem[lo:hi] = v] for [0 <= lo]. *)
Definition set_slice (lo hi : Z) (v : bool) (rem : list bool) : list bool :=
  imap (fun j r =>
          if bool_decide (lo <= Z.of_nat j < hi)%Z then v else r) rem.

(** One turn of the suppression loop: a peak that is still kept removes
    everything within [min_dist] of itself, and stays. *)
Definition suppress (min_dist : Z) (rem : list bool) (peak : nat)
  : list bool :=
  if negb (nth peak rem true) then
    let lo := Z.max 0 (Z.of_nat peak - min_dist) in
    let hi := (Z.of_nat peak + min_dist + 1)%Z in
    <[peak := false]> (set_slice lo hi true rem)
  else rem.

(** The candidates in the order the loop visits them: by decreasing
    height. *)
Definition highest (y : list num) (peaks : list nat) : list nat :=
  reverse ((fun p => nth p peaks 0%nat)
           <$> np.argsort ((fun i => y @ i) <$> peaks)).

(** [rem = ones(y.size); rem[peaks] = False]. *)
Definition rem_init (n : nat) (peaks : list nat) : list bool :=
  foldl (fun rem p => <[p := false]> rem) (replicate n true) peaks.

Definition min_dist_filter (y : list num) (min_dist : Z) (peaks : list nat)
  : list nat :=
  let rem := foldl (suppress min_dist) (rem_init (length y) peaks)
                   (highest y peaks) in
  np.where_ (negb <$> rem).

(** The positions that rise from the left, fall to the right and lie
    above the threshold. *)
Definition candidates (y dy : list num) (thres : num) : list nat :=
  let falls := (fun d => (d <? of_Z 0)%num) <$> (dy ++ [of_Z 0]) in
  let rises := (fun d => (d >? of_Z 0)%num) <$> (of_Z 0 :: dy) in
  let above := (fun v => (v >? thres)%num) <$> y in
  np.where_ (zip_with andb (zip_with andb falls rises) above).

Definition indices (y : list num) (thres : num) (min_dist : Z)
  : result (list nat) :=
  hi ← np.max y;
  lo ← np.min y;
  let thres := (thres * (hi - lo) + lo)%num in
  let dy := np.diff y in
  let zeros := np.where_ ((fun d => (d =? of_Z 0)%num) <$> dy) in
  if bool_decide (Z.of_nat (length zeros) = Z.of_nat (length y) - 1)%Z
  then Ok []
  else
    let dy := if bool_decide (length zeros = 0)%nat then dy
              else fill_plateaus dy in
    let peaks := candidates y dy thres in
    if bool_decide (1 < length peaks)%nat && bool_decide (1 < min_dist)%Z
    then Ok (min_dist_filter y min_dist peaks)
    else Ok peaks.

End peakutils.

(** ** [dv_analyzer.py] *)

Record Config : Type := {
  dv_window_size : Z;
  dv_threshold : num;
  lam_pe_threshold : num;
  lam_ne_threshold : num;
  lli_threshold : num;
}.

Definition config : Config := {|
  dv_window_size := 5;
  dv_threshold := Fin (qc 5 1000);
  lam_pe_threshold := Fin (qc 5 100);
  lam_ne_threshold := Fin (qc (-5) 100);
  lli_threshold := Fin (qc (-1) 10);
|}.

Record Modes : Type := {
  lam_pe : list nat;
  lam_ne : list nat;
  lli : list nat;
}.

Record DVAnalyzer : Type := {
  voltage : list num;
  current : list num;
  soc : list num;
  dv_curve_ : option (list num);
  degradation_modes_ : option Modes;
}.

#[global] Instance Modes_eq_dec : EqDecision Modes.
Proof. solve_decision. Defined.

#[global] Instance DVAnalyzer_eq_dec : EqDecision DVAnalyzer.
Proof. solve_decision. Defined.

Module DV.

Definition _validate_input (self : DVAnalyzer) : result unit :=
  if bool_decide (length (voltage self) ≠ length (current self))
     || bool_decide (length (voltage self) ≠ length (soc self))
  then Raise InvalidInputError
  else if existsb (fun c => (c <=? of_Z 0)%num) (current self)
  then Raise InvalidInputError
  else if negb (forallb (fun d => (d >=? of_Z 0)%num) (np.diff (soc self)))
  then Raise InvalidInputError
  else Ok ().

Definition __init__ (voltage current soc : list num) : result DVAnalyzer :=
  let self := {| voltage := voltage; current := current; soc := soc;
                 dv_curve_ := None; degradation_modes_ := None |} in
  _ ← _validate_input self;
  Ok self.

Definition _smooth (data : list num) (window_size : Z)
  : result (list num) :=
  ones ← np.ones window_size;
  let window := (fun x => (x / of_Z window_size)%num) <$> ones in
  np.convolve_valid data window.

(** The first line of [_calculate_dv]: the curve before smoothing. *)
Definition raw_dv (self : DVAnalyzer) : result (list num) :=
  gv ← np.gradient (voltage self);
  gs ← np.gradient (soc self);
  np.divide gv gs.

Definition _calculate_dv (self : DVAnalyzer) : result (list num) :=
  dv ← raw_dv self;
  _smooth dv (dv_window_size config).

Definition _detect_lam_pe (dv : list num) : result (list nat) :=
  peakutils.indices dv (lam_pe_threshold config) (dv_window_size config).

Definition _detect_lam_ne (dv : list num) : result (list nat) :=
  peakutils.indices (Num.neg <$> dv) (lam_ne_threshold config)
                    (dv_window_size config).

Definition _detect_lli (dv : list num) : result (list nat) :=
  peakutils.indices dv (lli_threshold config) (dv_window_size config).

Definition _identify_degradation_modes (dv : list num) : result Modes :=
  pe ← _detect_lam_pe dv;
  ne ← _detect_lam_ne dv;
  li ← _detect_lli dv;
  Ok {| lam_pe := pe; lam_ne := ne; lli := li |}.

Definition calculate_dv_curve (self : DVAnalyzer)
  : result (DVAnalyzer * list num) :=
  dv ← _calculate_dv self;
  modes ← _identify_degradation_modes dv;
  Ok ({| voltage := voltage self; current := current self; soc := soc self;
         dv_curve_ := Some dv; degradation_modes_ := Some modes |}, dv).

Definition identify_degradation_modes (self : DVAnalyzer) : option Modes :=
  degradation_modes_ self.

(** [self.degradation_modes_.get(key, [])]: before the analysis has run
    [degradation_modes_] is [None], which has no [get]. *)
Definition detect_lam_pe (self : DVAnalyzer) : result (list nat) :=
  match degradation_modes_ self with
  | None => Raise AttributeError
  | Some modes => Ok (lam_pe modes)
  end.

Definition detect_lam_ne (self : DVAnalyzer) : result (list nat) :=
  match degradation_modes_ self with
  | None => Raise AttributeError
  | Some modes => Ok (lam_ne modes)
  end.

Definition detect_lli (self : DVAnalyzer) : result (list nat) :=
  match degradation_modes_ self with
  | None => Raise AttributeError
  | Some modes => Ok (lli modes)
  end.

Definition normalize_features (features : list num) : result (list num) :=
  min_val ← np.min features;
  max_val ← np.max features;
  Ok ((fun x => ((x - min_val) / (max_val - min_val))%num) <$> features).

End DV.

(** ** [soh_calculator.py] *)

(** The values that travel between the calculator's methods: [None], a
    float64 scalar, or a one-dimensional float64 array. *)
Inductive pyval : Type :=
| PNone
| PFloat (x : num)
| PArr (a : list num).

#[global] Instance pyval_eq_dec : EqDecision pyval.
Proof. solve_decision. Defined.

(** The result of a comparison or of [|]: a boolean or a boolean array. *)
Inductive pymask : Type :=
| MBool (b : bool)
| MArr (a : list bool).

(** A data frame with one column per label, by its columns.  (pandas
    keeps the columns of a frame equally long; the model does not rely
    on it.  Frames in which a label repeats are treated further down,
    with arrays of two dimensions.) *)
Abbreviation DataFrame := (gmap string (list num)).

(** The parameters the calculator reads with [self.config.get(...)].
    [None] stands for a lookup that raises or yields no number: the
    annotated [ConfigHandler] defines no [get], and a dictionary returns
    [None] for a missing key. *)
Record SOHConfig : Type := {
  voltage_window : option (num * num);
  cutoff_charge : option num;
  cutoff_discharge : option num;
}.

Definition config_get {A} (v : option A) : result A :=
  match v with
  | Some a => Ok a
  | None => Raise AttributeError
  end.

Module scipy.

(** Running sum: [np.cumsum]. *)
Fixpoint cumsum_from (acc : num) (a : list num) : list num :=
  match a with
  | [] => []
  | x :: l => (acc + x)%num :: cumsum_from (acc + x)%num l
  end.

Definition cumsum (a : list num) : list num :=
  match a with
  | [] => []
  | x :: l => x :: cumsum_from x l
  end.

(** [integrate.cumtrapz(y, x, initial=0)] for a one-dimensional [x]: the
    running trapezoid sums, preceded by the initial value; [x] must have
    as many samples as [y]. *)
Definition cumtrapz (y : pyval) (x : list num) : result (list num) :=
  match y with
  | PArr y =>
      let d := np.diff x in
      if bool_decide (Z.of_nat (length d) ≠ Z.of_nat (length y) - 1)%Z
      then Raise ValueError
      else
        let steps :=
          zip_with (fun di s => (di * s / of_Z 2)%num) d
                   (zip_with Num.add (drop 1 y) y) in
        Ok (of_Z 0 :: cumsum steps)
  | PFloat _ | PNone => Raise IndexError
  end.

End scipy.

Module Py.

(** [a, b = v] for an array [v]: exactly two items. *)
Definition unpack2 (v : list num) : result (num * num) :=
  match v with
  | [a; b] => Ok (a, b)
  | _ => Raise ValueError
  end.

(** Unary minus. *)
Definition neg (v : pyval) : result pyval :=
  match v with
  | PNone => Raise TypeError
  | PFloat x => Ok (PFloat (- x)%num)
  | PArr a => Ok (PArr (Num.neg <$> a))
  end.

(** [v[0]] and [v[-1]]. *)
Definition first (v : pyval) : result num :=
  match v with
  | PNone => Raise TypeError
  | PFloat _ => Raise IndexError
  | PArr a => match head a with Some x => Ok x | None => Raise IndexError end
  end.

Definition last (v : pyval) : result num :=
  match v with
  | PNone => Raise TypeError
  | PFloat _ => Raise IndexError
  | PArr a => match list.last a with
              | Some x => Ok x
              | None => Raise IndexError
              end
  end.

(** [v < c] for a number [c]. *)
Definition lt (v : pyval) (c : num) : result pymask :=
  match v with
  | PNone => Raise TypeError
  | PFloat x => Ok (MBool (x <? c)%num)
  | PArr a => Ok (MArr ((fun x => (x <? c)%num) <$> a))
  end.

(** [m1 | m2], with numpy's broadcasting of a scalar or a one-item
    array. *)
Definition or (m1 m2 : pymask) : result pymask :=
  match m1, m2 with
  | MBool a, MBool b => Ok (MBool (a || b))
  | MBool a, MArr l | MArr l, MBool a => Ok (MArr (orb a <$> l))
  | MArr [a], MArr l => Ok (MArr (orb a <$> l))
  | MArr l, MArr [a] => Ok (MArr (orb a <$> l))
  | MArr l1, MArr l2 =>
      if bool_decide (length l1 = length l2)
      then Ok (MArr (zip_with orb l1 l2))
      else Raise ValueError
  end.

(** [np.any]. *)
Definition any (m : pymask) : bool :=
  match m with
  | MBool b => b
  | MArr l => existsb id l
  end.

(** [frame[name].values]. *)
Definition column (frame : DataFrame) (name : string) : result (list num) :=
  match frame !! name with
  | Some a => Ok a
  | None => Raise KeyError
  end.

End Py.

Module SOH.

Section Calculator.

Variable config : SOHConfig.

Definition apply_voltage_window (data : list num) (time : list num)
  : result pyval :=
  try_except
    ('(lo, hi) ← config_get (voltage_window config);
     Ok (PArr ((fun x => if (x >? lo)%num && (x <? hi)%num then x else NaN)
               <$> data)))
    (fun _ => Ok PNone).

Definition integrate_charge_discharge (data : pyval) (time : list num)
  : result (pyval * pyval) :=
  try_except
    (r ← scipy.cumtrapz data time;
     '(charge, _) ← Py.unpack2 r;
     ndata ← Py.neg data;
     r ← scipy.cumtrapz ndata time;
     '(discharge, _) ← Py.unpack2 r;
     Ok (PFloat charge, PFloat discharge))
    (fun _ => Ok (PNone, PNone)).

Definition validate_cutoff_conditions (charge discharge : pyval)
  : result bool :=
  try_except
    (cc ← config_get (cutoff_charge config);
     cd ← config_get (cutoff_discharge config);
     m1 ← Py.lt charge cc;
     m2 ← Py.lt discharge cd;
     m ← Py.or m1 m2;
     if Py.any m then Ok false else Ok true)
    (fun _ => Ok false).

(** [np.mean] of the scalar ratio is that ratio. *)
Definition calculate_capacity_soh_velocity_threshold
    (charge discharge : pyval) : result pyval :=
  try_except
    (cl ← Py.last charge;
     cf ← Py.first charge;
     dl ← Py.last discharge;
     df ← Py.first discharge;
     Ok (PFloat ((cl - cf) / (dl - df))%num))
    (fun _ => Ok PNone).

Definition calculate_energy_soh_flow_theory
    (charge discharge : pyval) : result pyval :=
  try_except
    (cl ← Py.last charge;
     cf ← Py.first charge;
     dl ← Py.last discharge;
     df ← Py.first discharge;
     Ok (PFloat ((cl - cf) / (dl - df))%num))
    (fun _ => Ok PNone).

Definition calculate_capacity_soh (capacity_data : DataFrame)
  : result pyval :=
  try_except
    (capacity ← Py.column capacity_data "capacity";
     time ← Py.column capacity_data "time";
     capacity ← apply_voltage_window capacity time;
     '(charge, discharge) ← integrate_charge_discharge capacity time;
     ok ← validate_cutoff_conditions charge discharge;
     if negb ok then Ok PNone
     else calculate_capacity_soh_velocity_threshold charge discharge)
    (fun _ => Ok PNone).

Definition calculate_energy_soh (energy_data : DataFrame)
  : result pyval :=
  try_except
    (energy ← Py.column energy_data "energy";
     time ← Py.column energy_data "time";
     energy ← apply_voltage_window energy time;
     '(charge, discharge) ← integrate_charge_discharge energy time;
     ok ← validate_cutoff_conditions charge discharge;
     if negb ok then Ok PNone
     else calculate_energy_soh_flow_theory charge discharge)
    (fun _ => Ok PNone).

End Calculator.

End SOH.

(** ** Frames whose column labels repeat

    [frame[name].values] is a one-dimensional array when one column
    carries the label [name], and a two-dimensional one, with a row per
    sample and a column per occurrence of the label, when several do.
    The calculator's methods are written for arrays of any shape; this
    section embeds them on arrays of one and of two dimensions. *)

(** An array of shape [(n,)], or of shape [(n, ncols)] by its rows. *)
Inductive ndarray : Type :=
| A1 (a : list num)
| A2 (ncols : nat) (rows : list (list num)).

Module pandas.

(** A frame by its columns, in order, each with its label.  (pandas
    keeps the columns of a frame equally long: the rows of a selection
    are read off with the length of its first column.) *)
Definition Frame : Type := list (string * list num).

Definition select (frame : Frame) (name : string) : list (list num) :=
  snd <$> filter (fun col => col.1 = name) frame.

(** [frame[name].values]. *)
Definition values (frame : Frame) (name : string) : result ndarray :=
  match select frame name with
  | [] => Raise KeyError
  | [col] => Ok (A1 col)
  | col :: cols =>
      Ok (A2 (S (length cols))
             ((fun i => (fun c => c @ i) <$> (col :: cols))
              <$> seq 0 (length col)))
  end.

End pandas.

Module SOHnd.

Section Calculator.

Variable config : SOHConfig.

(** [np.where(mask, data, np.nan)] works sample by sample on any
    shape. *)
Definition where_inside (lo hi : num) (a : list num) : list num :=
  (fun x => if (x >? lo)%num && (x <? hi)%num then x else NaN) <$> a.

Definition apply_voltage_window (data time : ndarray)
  : result (option ndarray) :=
  try_except
    ('(lo, hi) ← config_get (voltage_window config);
     Ok (Some match data with
              | A1 a => A1 (where_inside lo hi a)
              | A2 k rows => A2 k (where_inside lo hi <$> rows)
              end))
    (fun _ => Ok None).

(** The running trapezoid sums of one row [y] over the steps [d],
    preceded by the initial value. *)
Definition trapezoid_row (d y : list num) : list num :=
  of_Z 0 :: scipy.cumsum
              (zip_with (fun di s => (di * s / of_Z 2)%num) d
                        (zip_with Num.add (drop 1 y) y)).

(** [integrate.cumtrapz(y, x, initial=0)], along the last axis.  A
    one-dimensional [x] serves every row of [y]; otherwise [x] must
    have the dimension of [y] and as many columns, and the rows of the
    two are paired, a single row being repeated as needed. *)
Definition cumtrapz (y : option ndarray) (x : ndarray) : result ndarray :=
  match y, x with
  | None, _ => Raise IndexError
  | Some (A1 y), A1 x => a ← scipy.cumtrapz (PArr y) x; Ok (A1 a)
  | Some (A1 _), A2 _ _ => Raise ValueError
  | Some (A2 k rows), A1 x =>
      let d := np.diff x in
      if bool_decide (Z.of_nat (length d) ≠ Z.of_nat k - 1)%Z
      then Raise ValueError
      else Ok (A2 k (trapezoid_row d <$> rows))
  | Some (A2 k rows), A2 kx xrows =>
      if bool_decide (Z.of_nat (kx - 1) ≠ Z.of_nat k - 1)%Z
      then Raise ValueError
      else
        let ds := np.diff <$> xrows in
        if bool_decide (length ds = length rows)
        then Ok (A2 k (zip_with trapezoid_row ds rows))
        else match ds, rows with
             | [d], _ => Ok (A2 k (trapezoid_row d <$> rows))
             | _, [row] => Ok (A2 k ((fun d => trapezoid_row d row) <$> ds))
             | _, _ => Raise ValueError
             end
  end.

(** [a, b = v]: the two items of a one-dimensional array, the two rows
    of a two-dimensional one. *)
Definition unpack2 (v : ndarray) : result (pyval * pyval) :=
  match v with
  | A1 a => '(x, y) ← Py.unpack2 a; Ok (PFloat x, PFloat y)
  | A2 _ [r1; r2] => Ok (PArr r1, PArr r2)
  | A2 _ _ => Raise ValueError
  end.

(** Unary minus. *)
Definition neg (v : option ndarray) : result (option ndarray) :=
  match v with
  | None => Raise TypeError
  | Some (A1 a) => Ok (Some (A1 (Num.neg <$> a)))
  | Some (A2 k rows) =>
      Ok (Some (A2 k ((fun row : list num => Num.neg <$> row) <$> rows)))
  end.

Definition integrate_charge_discharge (data : option ndarray)
    (time : ndarray) : result (pyval * pyval) :=
  try_except
    (r ← cumtrapz data time;
     '(charge, _) ← unpack2 r;
     ndata ← neg data;
     r ← cumtrapz ndata time;
     '(discharge, _) ← unpack2 r;
     Ok (charge, discharge))
    (fun _ => Ok (PNone, PNone)).

Definition calculate_capacity_soh (capacity_data : pandas.Frame)
  : result pyval :=
  try_except
    (capacity ← pandas.values capacity_data "capacity";
     time ← pandas.values capacity_data "time";
     capacity ← apply_voltage_window capacity time;
     '(charge, discharge) ← integrate_charge_discharge capacity time;
     ok ← SOH.validate_cutoff_conditions config charge discharge;
     if negb ok then Ok PNone
     else SOH.calculate_capacity_soh_velocity_threshold charge discharge)
    (fun _ => Ok PNone).

Definition calculate_energy_soh (energy_data : pandas.Frame)
  : result pyval :=
  try_except
    (energy ← pandas.values energy_data "energy";
     time ← pandas.values energy_data "time";
     energy ← apply_voltage_window energy time;
     '(charge, discharge) ← integrate_charge_discharge energy time;
     ok ← SOH.validate_cutoff_conditions config charge discharge;
     if negb ok then Ok PNone
     else SOH.calculate_energy_soh_flow_theory charge discharge)
    (fun _ => Ok PNone).

End Calculator.

End SOHnd.

(** ** [database_manager.py]: the measurement record and the trend
    helpers *)

Module Database.

(** A stored measurement; each attribute may be [None]. *)
Record Measurement : Type := {
  timestamp : option Z;
  soh : option num;
  capacity : option num;
  energy : option num;
}.

Definition validate_measurement (measurement : Measurement) : bool :=
  match timestamp measurement, soh measurement,
        capacity measurement, energy measurement with
  | Some _, Some s, Some c, Some e =>
      if (s <? of_Z 0)%num || (s >? of_Z 1)%num then false
      else if (c <? of_Z 0)%num then false
      else if (e <? of_Z 0)%num then false
      else true
  | _, _, _, _ => false
  end.

(** [(values[-1] - values[0]) / (len(values) - 1)], the expression
    [calculate_trends] writes for each of its three series; arithmetic
    on [None] is a [TypeError]. *)
Definition endpoint_trend (values : list (option num)) : result num :=
  match last values, head values with
  | Some (Some l), Some (Some f) =>
      Ok ((l - f) / of_Z (Z.of_nat (length values) - 1))%num
  | Some _, Some _ => Raise TypeError
  | _, _ => Raise IndexError
  end.

Definition calculate_trends (measurements : list Measurement)
  : result (gmap string num) :=
  if bool_decide (length measurements < 2)%nat then Ok ∅
  else
    let soh_values := soh <$> measurements in
    let capacity_values := capacity <$> measurements in
    let energy_values := energy <$> measurements in
    soh_trend ← endpoint_trend soh_values;
    capacity_trend ← endpoint_trend capacity_values;
    energy_trend ← endpoint_trend energy_values;
    Ok (<["energy" := energy_trend]>
          (<["capacity" := capacity_trend]> {["soh" := soh_trend]})).

(** [all(values[i] < values[i-1] for i in range(1, len(values)))]:
    [all] stops at the first pair that fails. *)
Fixpoint all_decreasing (values : list (option num)) : result bool :=
  match values with
  | prev :: (cur :: _) as rest =>
      match cur, prev with
      | Some c, Some p =>
          if (c <? p)%num then all_decreasing rest else Ok false
      | _, _ => Raise TypeError
      end
  | _ => Ok true
  end.

Definition detect_aging_patterns (measurements : list Measurement)
  : result (bool * string) :=
  if bool_decide (length measurements < 5)%nat
  then Ok (false, "Insufficient data")
  else
    soh_degradation ← all_decreasing (soh <$> measurements);
    capacity_degradation ← all_decreasing (capacity <$> measurements);
    energy_degradation ← all_decreasing (energy <$> measurements);
    if soh_degradation && capacity_degradation && energy_degradation
    then Ok (true, "Aging pattern detected")
    else Ok (false, "No aging pattern detected").

End Database.

(** ** [data_acquisition.py]: the sample buffer *)

Module Acquisition.

Definition BUFFER_SIZE : nat := 1000.

Record SensorData : Type := {
  timestamp : num;
  voltage : num;
  current : num;
  temperature : num;
}.

(** [buffer.append(x)], then [buffer.pop(0)] once the buffer is longer
    than [BUFFER_SIZE]. *)
Definition buffer_data (buffer : list SensorData) (sensor_data : SensorData)
  : list SensorData :=
  let buffer := buffer ++ [sensor_data] in
  if bool_decide (BUFFER_SIZE < length buffer)%nat then drop 1 buffer
  else buffer.

End Acquisition.

(** ** [main_soh_analyzer.py]: the measurement conditions *)

Module Analyzer.

(** What [calculate_velocity] does: return a float, or raise one of the
    two exceptions a dictionary lookup and a float division can raise. *)
Inductive outcome : Type :=
| Returns (velocity : num)
| RaisesKeyError
| RaisesZeroDivisionError.

Definition validate_measurement_conditions
    (measurement_conditions : gmap string num) : bool :=
  forallb (fun condition =>
             bool_decide (is_Some (measurement_conditions !! condition)))
          ["temperature"; "voltage"; "current"].

(** Python floats: [x / 0.0] raises instead of returning an infinity. *)
Definition calculate_velocity (measurement_conditions : gmap string num)
  : outcome :=
  match measurement_conditions !! "temperature" with
  | None => RaisesKeyError
  | Some temperature =>
      match measurement_conditions !! "voltage" with
      | None => RaisesKeyError
      | Some voltage =>
          match measurement_conditions !! "current" with
          | None => RaisesKeyError
          | Some current =>
              if (temperature =? of_Z 0)%num then RaisesZeroDivisionError
              else Returns ((voltage * current) / temperature)%num
          end
      end
  end.

End Analyzer.

(** ** [config_handler.py]: the parameters file and the handler's lock *)

Module Handler.

Section Files.

(** The values stored in a parameters dictionary. *)
Context {V : Type}.

(** What a file holds: text that [json.load] rejects, or a JSON object.
    Other top-level JSON values are not modelled.  A file that is absent
    from the map cannot be opened for reading. *)
Inductive content : Type :=
| Malformed
| Object (d : gmap string V).

Definition files : Type := gmap string content.

(** Whether [open(name, 'w')] succeeds. *)
Variable writable : string -> bool.

Inductive error : Type :=
| InvalidConfigError
| OSError
| TypeError.

(** The handler's attributes that the two methods touch.  [lock] tells
    whether the handler's [threading.Lock] is held; the lock is not
    reentrant, so acquiring it while it is held waits for a release. *)
Record ConfigHandler : Type := {
  parameters_file : string;
  parameters : option (gmap string V);
  lock : bool;
}.

(** The end of a call: it returns, raises, or waits for the lock. *)
Inductive outcome (A : Type) : Type :=
| Returns (a : A) (self : ConfigHandler) (fs : files)
| Raises (e : error) (self : ConfigHandler) (fs : files)
| Blocks.

#[global] Arguments Returns {A} a self fs.
#[global] Arguments Raises {A} e self fs.
#[global] Arguments Blocks {A}.

Definition set_lock (held : bool) (self : ConfigHandler) : ConfigHandler :=
  {| parameters_file := parameters_file self;
     parameters := parameters self;
     lock := held |}.

Definition set_parameters (p : option (gmap string V))
    (self : ConfigHandler) : ConfigHandler :=
  {| parameters_file := parameters_file self;
     parameters := p;
     lock := lock self |}.

Definition __init__ (parameters_file : string) : ConfigHandler :=
  {| parameters_file := parameters_file;
     parameters := None;
     lock := false |}.

(** [not self.parameters]: [None] and the empty dictionary are false. *)
Definition falsy (p : option (gmap string V)) : bool :=
  match p with
  | None => true
  | Some d => bool_decide (size d = 0%nat)
  end.

(** [json.load] raising [JSONDecodeError] leaves [self.parameters] as it
    was; an empty object is stored before [InvalidConfigError] is
    raised.  Leaving the [with] block releases the lock. *)
Definition load_parameters (self : ConfigHandler) (fs : files)
  : outcome (gmap string V) :=
  if lock self then Blocks
  else
    let self := set_lock true self in
    match fs !! parameters_file self with
    | None => Raises OSError (set_lock false self) fs
    | Some Malformed => Raises InvalidConfigError (set_lock false self) fs
    | Some (Object d) =>
        let self := set_parameters (Some d) self in
        if falsy (parameters self)
        then Raises InvalidConfigError (set_lock false self) fs
        else Returns d (set_lock false self) fs
    end.

(** [self.parameters['voltage_range'] = voltage_ranges], then the dump
    to the parameters file; an exception of either is logged by the
    handler of [update_voltage_ranges]. *)
Definition store_voltage_ranges (self : ConfigHandler) (fs : files)
    (voltage_ranges : V) : outcome unit :=
  match parameters self with
  | None => Returns () (set_lock false self) fs
  | Some d =>
      let d := <["voltage_range" := voltage_ranges]> d in
      let self := set_parameters (Some d) self in
      if writable (parameters_file self)
      then Returns () (set_lock false self)
             (<[parameters_file self := Object d]> fs)
      else Returns () (set_lock false self) fs
  end.

(** The method takes the lock, calls [load_parameters] when the
    parameters are not loaded, stores the ranges and writes the
    dictionary to the parameters file.  Its handler logs any exception,
    so that it returns [None] whenever it returns. *)
Definition update_voltage_ranges (self : ConfigHandler) (fs : files)
    (voltage_ranges : V) : outcome unit :=
  if lock self then Blocks
  else
    let self := set_lock true self in
    if falsy (parameters self) then
      match load_parameters self fs with
      | Blocks => Blocks
      | Raises _ self fs => Returns () (set_lock false self) fs
      | Returns _ self fs => store_voltage_ranges self fs voltage_ranges
      end
    else store_voltage_ranges self fs voltage_ranges.

End Files.

End Handler.

(** ** The same lines in binary64

    Rocq's primitive floating-point numbers are the binary64 numbers of
    IEEE 754 with round-to-nearest-even operations, which is the
    arithmetic of numpy's float64.  A decimal literal denotes the
    nearest binary64 number, as it does in Python. *)

Module F64.

Import PrimFloat.

Definition at_ (a : list float) (i : nat) : float := nth i a nan.

(** [np.diff(a)]. *)
Definition diff (a : list float) : list float :=
  zip_with (fun nxt cur => (nxt - cur)%float) (drop 1 a) a.

(** [np.gradient(f)] with unit spacing. *)
Definition gradient (f : list float) : result (list float) :=
  let n := length f in
  if bool_decide (n < 2)%nat then Raise ValueError
  else Ok ((fun i : nat =>
              if bool_decide (i = 0)%nat
              then ((at_ f 1 - at_ f 0) / 1)%float
              else if bool_decide (i = n - 1)%nat
                   then ((at_ f (n - 1) - at_ f (n - 2)) / 1)%float
                   else ((at_ f (i + 1) - at_ f (i - 1)) / 2)%float)
           <$> seq 0 n).

Definition divide (a b : list float) : result (list float) :=
  if bool_decide (length a = length b) then Ok (zip_with div a b)
  else Raise ValueError.

(** [DVAnalyzer._validate_input]. *)
Definition _validate_input (voltage current soc : list float)
  : result unit :=
  if bool_decide (length voltage ≠ length current)
     || bool_decide (length voltage ≠ length soc)
  then Raise InvalidInputError
  else if existsb (fun c => (c <=? 0)%float) current
  then Raise InvalidInputError
  else if negb (forallb (fun d => (0 <=? d)%float) (diff soc))
  then Raise InvalidInputError
  else Ok ().

(** The first line of [DVAnalyzer._calculate_dv]. *)
Definition raw_dv (voltage soc : list float) : result (list float) :=
  gv ← gradient voltage;
  gs ← gradient soc;
  divide gv gs.

(** [SOHCalculator.calculate_capacity_soh_velocity_threshold] on two
    arrays; [None] is the value of its error branch, taken when an array
    is empty. *)
Definition calculate_capacity_soh_velocity_threshold
    (charge discharge : list float) : option float :=
  match last charge, head charge, last discharge, head discharge with
  | Some cl, Some cf, Some dl, Some df => Some ((cl - cf) / (dl - df))%float
  | _, _, _, _ => None
  end.

Definition calculate_energy_soh_flow_theory
    (charge discharge : list float) : option float :=
  match last charge, head charge, last discharge, head discharge with
  | Some cl, Some cf, Some dl, Some df => Some ((cl - cf) / (dl - df))%float
  | _, _, _, _ => None
  end.

(** [np.max] and [np.min]: NaN if a sample is NaN, no value for an
    empty array. *)
Definition max2 (x y : float) : float :=
  if is_nan x then nan else if is_nan y then nan
  else if (x <? y)%float then y else x.

Definition min2 (x y : float) : float :=
  if is_nan x then nan else if is_nan y then nan
  else if (y <? x)%float then y else x.

Definition max (a : list float) : result float :=
  match a with
  | [] => Raise ValueError
  | x :: l => Ok (foldl max2 x l)
  end.

Definition min (a : list float) : result float :=
  match a with
  | [] => Raise ValueError
  | x :: l => Ok (foldl min2 x l)
  end.

(** [DVAnalyzer.normalize_features]. *)
Definition normalize_features (features : list float)
  : result (list float) :=
  min_val ← min features;
  max_val ← max features;
  Ok ((fun x => ((x - min_val) / (max_val - min_val))%float) <$> features).

(** Neither zero, nor infinite, nor NaN. *)
Definition finite_nonzero (x : float) : Prop :=
  is_finite x = true ∧ is_zero x = false.

(** *** Inputs to evaluate on *)

Definition one : float := 1%float.

(** Three samples of the voltage [0.5 * soc + 3] at the SOC values 0,
    0.2 and 0.4, written as decimals. *)
#[warning="-inexact-float"]
Definition decimal_volts : list float := [3.0; 3.1; 3.2]%float.
#[warning="-inexact-float"]
Definition decimal_socs : list float := [0.0; 0.2; 0.4]%float.
Definition unit_amps : list float := [1.0; 1.0; 1.0]%float.
Definition half : float := 0.5%float.
#[warning="-inexact-float"]
Definition half_and_a_bit : float := 0.5000000000000004%float.

(** Three samples of the voltage [(2^53 + 1) * soc - (2^53 + 2)] at the
    SOC values 0, 1 and 2.  All six numbers are binary64 numbers; the
    slope [2^53 + 1] is not. *)
Definition steep_volts : list float :=
  [-9007199254740994.0; -1.0; 9007199254740992.0]%float.
Definition unit_socs : list float := [0.0; 1.0; 2.0]%float.
Definition two_to_53 : float := 9007199254740992.0%float.

(** SOC samples that reach infinity and stay there. *)
Definition saturated_socs : list float := [0.0; infinity; infinity]%float.

(** The features [-2^1023], [2^1023] and 0. *)
Definition far_features : list float :=
  [-0x1p+1023; 0x1p+1023; 0.0]%float.

(** An accumulator that runs from the nearest binary64 number to
    [-1e308] to the nearest one to [1e308]. *)
#[warning="-inexact-float"]
Definition wide_accumulator : list float := [-1e308; 1e308]%float.

End F64.

(** * The vocabulary of the properties *)

(** ** Input validation *)

Definition lengths_differ (v c s : list num) : Prop :=
  length v ≠ length c ∨ length v ≠ length s.

Definition some_current_not_positive (c : list num) : Prop :=
  ∃ x, x ∈ c ∧ (x <=? of_Z 0)%num = true.

(** The test of [_validate_input] on SOC,
    [np.all(np.diff(soc) >= 0)]: every increment [soc[i+1] - soc[i]] is
    [>= 0]. *)
Definition increments_non_negative (s : list num) : Prop :=
  ∀ i a b, s !! i = Some a -> s !! S i = Some b ->
           ((b - a)%num >=? of_Z 0)%num = true.

(** What makes [_validate_input] raise, test by test. *)
Definition fails_check (v c s : list num) : Prop :=
  lengths_differ v c s ∨ some_current_not_positive c
  ∨ ¬ increments_non_negative s.

(** SOC is non-decreasing: each sample is [<=] the one that follows. *)
Definition soc_non_decreasing (s : list num) : Prop :=
  ∀ i a b, s !! i = Some a -> s !! S i = Some b -> (a <=? b)%num = true.

(** The invariants of a measurement triple, as broken: the arrays differ
    in length, or some current sample is [<= 0], or SOC is not
    non-decreasing. *)
Definition violates_invariant (v c s : list num) : Prop :=
  lengths_differ v c s ∨ some_current_not_positive c
  ∨ ¬ soc_non_decreasing s.

(** Two adjacent SOC samples are the same infinity. *)
Definition soc_repeats_infinity (s : list num) : Prop :=
  ∃ i a, s !! i = Some a ∧ s !! S i = Some a ∧ (a = PInf ∨ a = NInf).

(** ** Smoothing *)

Definition sum (l : list num) : num := foldl Num.add (of_Z 0) l.

(** The box filter at position [i]: the [w] samples from [i] on, each
    with weight [1 / w]. *)
Definition window_mean (data : list num) (w : Z) (i : nat) : num :=
  sum ((fun x => (x * (of_Z 1 / of_Z w))%num)
       <$> take (Z.to_nat w) (drop i data)).

(** ** Linear curves *)

(** Successive samples differ by the constant [d]. *)
Definition const_step (d : Qc) (t : list Qc) : Prop :=
  ∀ i x y, t !! i = Some x -> t !! S i = Some y -> y = x + d.

Definition qat (t : list Qc) (i : nat) : Qc := default 0 (t !! i).

(** The numerical gradient at position [i] of an array with unit
    spacing: the one-sided difference at either end, half the difference
    of the two neighbours in between. *)
Definition numerical_gradient (f : list num) (i : nat) : num :=
  if bool_decide (i = 0)%nat then (f @ 1 - f @ 0)%num
  else if bool_decide (i = length f - 1)%nat
       then (f @ (length f - 1) - f @ (length f - 2))%num
       else ((f @ (i + 1) - f @ (i - 1)) / of_Z 2)%num.

(** ** Minimum-distance suppression *)

(** Position [i] is still kept. *)
Definition kept (rem : list bool) (i : nat) : Prop := rem !! i = Some false.

(** [j] lies in the window around [i]. *)
Definition within (min_dist : Z) (i j : nat) : Prop :=
  (Z.abs (Z.of_nat i - Z.of_nat j) <= min_dist)%Z.

(** The loop visits [order]; [visited] is the part already seen. *)
Definition descending (y : list num) (order : list nat) : Prop :=
  ∀ l1 p l2 c, order = l1 ++ p :: l2 -> c ∈ l2 ->
               Num.sort_le (y @ c) (y @ p).

Record suppress_inv (y : list num) (min_dist : Z)
    (peaks visited : list nat) (rem : list bool) : Prop := {
  inv_sub : ∀ i, kept rem i -> i ∈ peaks;
  inv_apart : ∀ i j, i ∈ visited -> kept rem i -> kept rem j -> i ≠ j ->
                     ¬ within min_dist i j;
  inv_killer : ∀ c, c ∈ peaks -> ¬ kept rem c ->
                    ∃ k, k ∈ visited ∧ kept rem k ∧ within min_dist k c
                         ∧ Num.sort_le (y @ c) (y @ k);
}.

(** ** The three detectors *)

Inductive mode : Type := LamPE | LamNE | LLI.

Definition detect (m : mode) (dv : list num) : result (list nat) :=
  match m with
  | LamPE => DV._detect_lam_pe dv
  | LamNE => DV._detect_lam_ne dv
  | LLI => DV._detect_lli dv
  end.

(** The curve a detector hands to the peak finder, and its threshold. *)
Definition mode_curve (m : mode) (dv : list num) : list num :=
  match m with
  | LamNE => Num.neg <$> dv
  | LamPE | LLI => dv
  end.

Definition mode_threshold (m : mode) : num :=
  match m with
  | LamPE => lam_pe_threshold config
  | LamNE => lam_ne_threshold config
  | LLI => lli_threshold config
  end.

(** The NE detector as the specification words it: the peaks of the
    negated curve, with the positive magnitude of [lam_ne_threshold] as
    the threshold handed to the peak finder. *)
Definition magnitude (x : num) : num :=
  if (x <? of_Z 0)%num then (- x)%num else x.

Definition detect_lam_ne_by_magnitude (dv : list num) : result (list nat) :=
  peakutils.indices (Num.neg <$> dv) (magnitude (lam_ne_threshold config))
                    (dv_window_size config).

(** A curve with a deep trough at index 1 and a shallow one, 3 % of
    the range, at index 8. *)
Definition two_troughs : list num :=
  Num.neg <$> [fin 0 1; fin 1 1; fin 5 10; fin 4 10; fin 3 10; fin 2 10;
               fin 1 10; fin 2 100; fin 3 100; fin 1 100; fin 0 1].

(** The candidate peaks of [indices]: what it has found when it reaches
    the minimum-distance step. *)
Definition found_before_suppression (y : list num) (thres : num)
  : list nat :=
  match np.max y, np.min y with
  | Ok hi, Ok lo =>
      let thres := (thres * (hi - lo) + lo)%num in
      let dy := np.diff y in
      let zeros := np.where_ ((fun d => (d =? of_Z 0)%num) <$> dy) in
      if bool_decide (Z.of_nat (length zeros) = Z.of_nat (length y) - 1)%Z
      then []
      else peakutils.candidates y
             (if bool_decide (length zeros = 0)%nat then dy
              else peakutils.fill_plateaus dy) thres
  | _, _ => []
  end.

(** ** A configuration and a frame to evaluate on *)

Definition demo_config : SOHConfig := {|
  voltage_window := Some (fin (-1) 1, fin 100 1);
  cutoff_charge := Some NInf;
  cutoff_discharge := Some NInf;
|}.

Definition demo_frame : DataFrame :=
  <["capacity" := [fin 0 1; fin 10 1; fin 20 1]]>
    (<["energy" := [fin 0 1; fin 10 1; fin 20 1]]>
       {["time" := [fin 0 1; fin 1 1]]}).

(** ** Frames *)

(** At most one column of the frame carries the label. *)
Definition labelled_once (frame : pandas.Frame) (name : string) : Prop :=
  (length (pandas.select frame name) <= 1)%nat.

(** Two samples of a frame in which the label of the series is given to
    two columns, and a configuration whose window and cutoffs they
    meet. *)
Definition twice_labelled (name : string) : pandas.Frame :=
  [(name, [fin 1 1; fin 2 1]); (name, [fin 3 1; fin 4 1]);
   ("time", [fin 0 1; fin 1 1])].

Definition wide_config : SOHConfig := {|
  voltage_window := Some (fin 0 1, fin 10 1);
  cutoff_charge := Some (fin 0 1);
  cutoff_discharge := Some (fin (-10) 1);
|}.

(** ** Scaling and windowing *)


(** Strictly inside the window. *)
Definition inside (lo hi x : num) : bool := (x >? lo)%num && (x <? hi)%num.

(** ** Stored measurements *)

(** A measurement with every attribute present. *)
Definition measurement (t : Z) (s c e : num) : Database.Measurement :=
  {| Database.timestamp := Some t; Database.soh := Some s;
     Database.capacity := Some c; Database.energy := Some e |}.

(** ** Inputs to evaluate on *)

(** Five samples of a voltage rising by 0.1 V per 20 % of charge. *)
Definition five_volts : list num :=
  [fin 30 10; fin 31 10; fin 32 10; fin 33 10; fin 34 10].
Definition five_amps : list num :=
  [fin 1 1; fin 1 1; fin 1 1; fin 1 1; fin 1 1].
Definition five_socs : list num :=
  [fin 0 10; fin 2 10; fin 4 10; fin 6 10; fin 8 10].
Definition five_analyzer : DVAnalyzer :=
  {| voltage := five_volts; current := five_amps; soc := five_socs;
     dv_curve_ := None; degradation_modes_ := None |}.

(** Five measurements in which every attribute falls at each step. *)
Definition steady_measurements : list Database.Measurement :=
  [measurement 0 (fin 5 10) (fin 100 1) (fin 1000 1);
   measurement 1 (fin 4 10) (fin 90 1) (fin 900 1);
   measurement 2 (fin 3 10) (fin 80 1) (fin 800 1);
   measurement 3 (fin 2 10) (fin 70 1) (fin 700 1);
   measurement 4 (fin 1 10) (fin 60 1) (fin 600 1)].

(** * Properties *)

(** Closed goals are settled by evaluating a decision procedure. *)
Ltac by_compute := apply (bool_decide_unpack _); vm_compute; exact I.

(** ** Arithmetic of samples *)

Section NumFacts.

Lemma add_zero_l (x : num) : (of_Z 0 + x)%num = x.
Proof.
  destruct x as [q| | |]; simpl; try reflexivity.
  f_equal. change (Q2Qc (inject_Z 0)) with 0. ring.
Qed.

Lemma one_div_one : (of_Z 1 / of_Z 1)%num = of_Z 1.
Proof. by_compute. Qed.

Lemma mul_one_r (x : num) : (x * of_Z 1)%num = x.
Proof.
  destruct x as [q| | |]; simpl; try reflexivity.
  f_equal. change (Q2Qc (inject_Z 1)) with 1. ring.
Qed.

Lemma div_one_r (x : num) : (x / of_Z 1)%num = x.
Proof.
  destruct x as [q| | |]; try by_compute.
  unfold Num.div, of_Z. change (Q2Qc (inject_Z 1)) with 1.
  rewrite bool_decide_eq_false_2 by discriminate.
  f_equal. field. discriminate.
Qed.

Lemma sub_fin (a b : Qc) : (Fin a - Fin b)%num = Fin (a - b).
Proof. reflexivity. Qed.

Lemma div_fin (a b : Qc) : b ≠ 0 -> (Fin a / Fin b)%num = Fin (a / b).
Proof. intros Hb. simpl. by rewrite bool_decide_eq_false_2. Qed.

Lemma div_self (a : Qc) : a ≠ 0 -> (Fin a / Fin a)%num = Fin 1.
Proof. intros Ha. rewrite div_fin by done. f_equal. by field. Qed.

(** Without an infinite operand, [b - a >= 0] is [a <= b]. *)
Lemma geb_sub_zero (a b : num) :
  a ≠ PInf -> a ≠ NInf -> b ≠ PInf -> b ≠ NInf ->
  ((b - a)%num >=? of_Z 0)%num = (a <=? b)%num.
Proof.
  intros. destruct a as [p| | |], b as [q| | |]; try done.
  unfold Num.geb, Num.sub. simpl.
  change (Q2Qc (inject_Z 0)) with 0.
  apply bool_decide_ext. split; intros Hle.
  - apply Qcle_minus_iff. exact Hle.
  - apply Qcle_minus_iff in Hle. exact Hle.
Qed.

End NumFacts.

(** ** Input validation of the analyzer *)

Lemma diff_cons2 (a b : num) (l : list num) :
  np.diff (a :: b :: l) = (b - a)%num :: np.diff (b :: l).
Proof. reflexivity. Qed.

Lemma diff_all_geb (s : list num) :
  forallb (fun d => (d >=? of_Z 0)%num) (np.diff s) = true
  <-> increments_non_negative s.
Proof.
  induction s as [|a [|b l] IH].
  - split; [|done]. intros _ i a b Hi. by rewrite lookup_nil in Hi.
  - split; [|done]. intros _ i a' b Hi Hj. by destruct i.
  - rewrite diff_cons2. simpl forallb. rewrite andb_true_iff, IH.
    split.
    + intros [H0 Hrest] i x y Hi Hj. destruct i as [|i].
      * simpl in Hi, Hj. by simplify_eq.
      * exact (Hrest i x y Hi Hj).
    + intros Hall. split.
      * exact (Hall 0%nat a b eq_refl eq_refl).
      * intros i x y Hi Hj. exact (Hall (S i) x y Hi Hj).
Qed.

Lemma current_check (c : list num) :
  existsb (fun x => (x <=? of_Z 0)%num) c = true
  <-> some_current_not_positive c.
Proof.
  rewrite existsb_exists. unfold some_current_not_positive.
  by setoid_rewrite list_elem_of_In.
Qed.

Lemma init_cases (v c s : list num) :
  (fails_check v c s ∧ DV.__init__ v c s = Raise InvalidInputError)
  ∨ (¬ fails_check v c s ∧
     DV.__init__ v c s
     = Ok {| voltage := v; current := c; soc := s;
             dv_curve_ := None; degradation_modes_ := None |}).
Proof.
  unfold DV.__init__, DV._validate_input, fails_check,
    lengths_differ. cbn [voltage current soc].
  destruct (decide (length v = length c)) as [Hvc|Hvc];
    [|left; split; [tauto|by rewrite (bool_decide_eq_true_2 _ Hvc)]].
  destruct (decide (length v = length s)) as [Hvs|Hvs];
    [|left; split; [tauto|]].
  2:{ rewrite (bool_decide_eq_true_2 _ Hvs). by rewrite orb_true_r. }
  rewrite !bool_decide_eq_false_2 by (intros ?; done). cbn [orb].
  destruct (existsb _ c) eqn:Hc.
  { left. split; [|done]. right; left. by apply current_check. }
  destruct (forallb _ (np.diff s)) eqn:Hs; cbn [negb].
  - right. split; [|done]. intros [[?|?]|[Hcur|Hsoc]]; try done.
    + apply current_check in Hcur. congruence.
    + apply Hsoc. by apply diff_all_geb.
  - left. split; [|done]. right; right. intros Hnd.
    apply diff_all_geb in Hnd. congruence.
Qed.

(** The stages after validation raise numpy's [ValueError] only. *)
Lemma gradient_raises (f : list num) (e : exn) :
  np.gradient f = Raise e -> e = ValueError.
Proof. unfold np.gradient. by case_bool_decide; intros [= <-]. Qed.

Lemma convolve_raises (a v : list num) (e : exn) :
  np.convolve_valid a v = Raise e -> e = ValueError.
Proof.
  unfold np.convolve_valid.
  case_bool_decide; repeat case_bool_decide; by intros [= <-].
Qed.

Lemma smooth_raises (data : list num) (w : Z) (e : exn) :
  DV._smooth data w = Raise e -> e = ValueError.
Proof.
  unfold DV._smooth, np.ones. case_bool_decide; [by intros [= <-]|].
  cbn [mbind result_bind]. apply convolve_raises.
Qed.

Lemma indices_raises (y : list num) (thres : num) (md : Z) (e : exn) :
  peakutils.indices y thres md = Raise e -> e = ValueError.
Proof.
  destruct y as [|x l]; [by intros [= <-]|].
  unfold peakutils.indices. cbn [np.max np.min mbind result_bind].
  case_bool_decide; [done|]. by case_match.
Qed.

Lemma calculate_dv_raises (self : DVAnalyzer) (e : exn) :
  DV._calculate_dv self = Raise e -> e = ValueError.
Proof.
  unfold DV._calculate_dv, DV.raw_dv.
  destruct (np.gradient (voltage self)) as [gv|e1] eqn:Hv;
    cbn [mbind result_bind];
    [|intros [= <-]; by apply gradient_raises in Hv].
  destruct (np.gradient (soc self)) as [gs|e2] eqn:Hs;
    cbn [mbind result_bind];
    [|intros [= <-]; by apply gradient_raises in Hs].
  unfold np.divide. case_bool_decide; cbn [mbind result_bind];
    [apply smooth_raises|by intros [= <-]].
Qed.

Lemma calculate_dv_curve_raises (self : DVAnalyzer) (e : exn) :
  DV.calculate_dv_curve self = Raise e -> e = ValueError.
Proof.
  unfold DV.calculate_dv_curve, DV._identify_degradation_modes,
    DV._detect_lam_pe, DV._detect_lam_ne, DV._detect_lli.
  destruct (DV._calculate_dv self) as [dv|e0] eqn:Hdv;
    cbn [mbind result_bind];
    [|intros [= <-]; by apply calculate_dv_raises in Hdv].
  repeat (match goal with
          | |- context [peakutils.indices ?y ?t ?m] =>
              let H := fresh "H" in
              destruct (peakutils.indices y t m) eqn:H;
              cbn [mbind result_bind];
              [|intros [= <-]; by apply indices_raises in H]
          end).
  done.
Qed.

(** One increment: [b - a >= 0] says that [a <= b], and that [a] and
    [b] are not one and the same infinity, whose difference is NaN. *)
Lemma increment_geb (a b : num) :
  ((b - a)%num >=? of_Z 0)%num = true
  <-> (a <=? b)%num = true ∧ ¬ (a = b ∧ (a = PInf ∨ a = NInf)).
Proof.
  destruct a as [p| | |], b as [q| | |];
    try (cbn; split; [intros ?; split; [done|]; intros [? [?|?]]; done
                     |intros [? ?]; done]);
    try (cbn; split; [done|intros [? ?]; done]).
  - rewrite geb_sub_zero by done. split; [|tauto].
    intros Hle. split; [done|]. by intros [_ [?|?]].
  - cbn. split; [done|]. intros [_ Hn]. exfalso. apply Hn. auto.
  - cbn. split; [done|]. intros [_ Hn]. exfalso. apply Hn. auto.
Qed.

Lemma diff_some_negative (s : list num) :
  forallb (fun d => (d >=? of_Z 0)%num) (np.diff s) = false ->
  ∃ i a b, s !! i = Some a ∧ s !! S i = Some b
           ∧ ((b - a)%num >=? of_Z 0)%num = false.
Proof.
  induction s as [|a [|b l] IH]; try done.
  rewrite diff_cons2. cbn [forallb].
  destruct ((b - a)%num >=? of_Z 0)%num eqn:Hab.
  - cbn [andb]. intros (i & x & y & Hi & Hj & Hneg)%IH.
    by exists (S i), x, y.
  - intros _. by exists 0%nat, a, b.
Qed.

(** The test on the increments, in terms of the samples: it passes
    exactly when SOC is non-decreasing and no infinity is repeated. *)
Lemma increments_cases (s : list num) :
  (increments_non_negative s
   ∧ soc_non_decreasing s ∧ ¬ soc_repeats_infinity s)
  ∨ (¬ increments_non_negative s
     ∧ (¬ soc_non_decreasing s ∨ soc_repeats_infinity s)).
Proof.
  destruct (forallb (fun d => (d >=? of_Z 0)%num) (np.diff s)) eqn:Hall.
  - left. apply diff_all_geb in Hall. split; [done|]. split.
    + intros i a b Hi Hj. by apply (increment_geb a b), (Hall i).
    + intros (i & a & Hi & Hj & Hinf).
      by apply (increment_geb a a); [apply (Hall i)|].
  - right. split.
    { intros Hinc. apply diff_all_geb in Hinc. congruence. }
    destruct (diff_some_negative s Hall) as (i & a & b & Hi & Hj & Hneg).
    destruct (a <=? b)%num eqn:Hle.
    + right. exists i, a.
      destruct (decide (a = b ∧ (a = PInf ∨ a = NInf))) as [[<- Hinf]|Hn].
      * done.
      * exfalso. assert (((b - a)%num >=? of_Z 0)%num = true)
          by (by apply increment_geb). congruence.
    + left. intros Hnd. specialize (Hnd i a b Hi Hj). congruence.
Qed.

Lemma fails_check_iff (v c s : list num) :
  fails_check v c s <-> violates_invariant v c s ∨ soc_repeats_infinity s.
Proof.
  unfold fails_check, violates_invariant.
  destruct (increments_cases s) as [(Hinc & Hnd & Hrep)|(Hinc & Hbad)];
    tauto.
Qed.

(** C9 as the spec has it fails.  The SOC samples [0, inf, inf] never
    decrease, the lengths agree and the current is positive, so that no
    invariant is broken; but the increment [inf - inf] is NaN, the test
    [np.diff(soc) >= 0] fails on it, and the constructor raises. *)
Lemma soc_equal_infinities_counterexample :
  let v := [fin 30 10; fin 31 10; fin 32 10] in
  let c := [fin 1 1; fin 1 1; fin 1 1] in
  let s := [fin 0 1; PInf; PInf] in
  soc_non_decreasing s
  ∧ ¬ violates_invariant v c s
  ∧ DV.__init__ v c s = Raise InvalidInputError
  ∧ F64._validate_input F64.decimal_volts F64.unit_amps F64.saturated_socs
    = Raise InvalidInputError.
Proof.
  intros v c s.
  assert (Hnd : soc_non_decreasing s).
  { intros [|[|[|i]]] a b Hi Hj; simpl in Hi, Hj; by simplify_eq. }
  split; [exact Hnd|]. split; [|split; by vm_compute].
  intros [[Hl|Hl]|[(x & Hx & Hle)|Hs]]; [done|done| |done].
  set_unfold in Hx. destruct Hx as [->|[->|[->|[]]]]; done.
Qed.

(** C9, amended.  The constructor raises [InvalidInputError] exactly
    when the triple breaks an invariant (the arrays differ in length,
    or some current sample is [<= 0], or SOC is not non-decreasing) or
    two adjacent SOC samples are the same infinity.  When it raises no
    analyzer exists, hence no curve and no degradation modes; otherwise
    it returns the analyzer with both results still unset.  No later
    stage of the analysis raises [InvalidInputError]. *)
Theorem validation_raises_iff_invariant_broken (v c s : list num) :
  (DV.__init__ v c s = Raise InvalidInputError
   <-> violates_invariant v c s ∨ soc_repeats_infinity s)
  ∧ (¬ (violates_invariant v c s ∨ soc_repeats_infinity s) <->
     DV.__init__ v c s
     = Ok {| voltage := v; current := c; soc := s;
             dv_curve_ := None; degradation_modes_ := None |})
  ∧ (violates_invariant v c s ∨ soc_repeats_infinity s ->
     ∀ a, DV.__init__ v c s ≠ Ok a)
  ∧ (∀ self, DV.calculate_dv_curve self ≠ Raise InvalidInputError).
Proof.
  assert (Hlater : ∀ self,
            DV.calculate_dv_curve self ≠ Raise InvalidInputError).
  { intros self Hr. by apply calculate_dv_curve_raises in Hr. }
  rewrite <- (fails_check_iff v c s).
  destruct (init_cases v c s) as [[Hv Hr]|[Hv Hr]]; rewrite Hr.
  - split; [tauto|]. split; [|split; [by intros _ a|done]].
    split; [tauto|done].
  - split; [split; [done|tauto]|]. split; [tauto|]. split; [tauto|done].
Qed.

(** ** Smoothing *)

Lemma zip_with_replicate_tap (a : list num) (n : nat) (t : num) :
  (length a <= n)%nat ->
  zip_with Num.mul a (replicate n t) = (fun x => (x * t)%num) <$> a.
Proof.
  revert n. induction a as [|x a IH]; intros [|n] Hn; simpl in *;
    try done; try lia.
  f_equal. apply IH. lia.
Qed.

Lemma window_of_ones (w : Z) :
  (0 <= w)%Z ->
  np.ones w = Ok (replicate (Z.to_nat w) (of_Z 1)).
Proof. intros Hw. unfold np.ones. by rewrite bool_decide_eq_false_2 by lia. Qed.

Lemma smooth_unfold (data : list num) (w : Z) :
  (0 <= w)%Z ->
  DV._smooth data w
  = np.convolve_valid data
      (replicate (Z.to_nat w) (of_Z 1 / of_Z w)%num).
Proof.
  intros Hw. unfold DV._smooth. rewrite window_of_ones by done.
  cbn [mbind result_bind]. by rewrite fmap_replicate.
Qed.

Lemma smooth_in_range (data : list num) (w : Z) :
  (1 <= w <= Z.of_nat (length data))%Z ->
  DV._smooth data w
  = Ok (window_mean data w <$> seq 0 (length data - Z.to_nat w + 1)).
Proof.
  intros Hw. rewrite smooth_unfold by lia. unfold np.convolve_valid.
  rewrite length_replicate.
  rewrite (bool_decide_eq_false_2 (length data < Z.to_nat w)%nat) by lia.
  rewrite length_replicate.
  rewrite !bool_decide_eq_false_2 by lia.
  f_equal. apply map_ext. intros k.
  unfold np.dot, window_mean, sum. rewrite reverse_replicate.
  rewrite zip_with_replicate_tap; [done|].
  rewrite length_take. lia.
Qed.

Lemma window_mean_one (data : list num) (i : nat) (x : num) :
  data !! i = Some x -> window_mean data 1 i = x.
Proof.
  intros Hi. unfold window_mean. change (Z.to_nat 1) with 1%nat.
  rewrite one_div_one, (drop_S _ _ _ Hi). cbn [take fmap list_fmap].
  unfold sum. cbn [foldl]. by rewrite mul_one_r, add_zero_l.
Qed.

Lemma window_mean_one_all (data : list num) :
  window_mean data 1 <$> seq 0 (length data) = data.
Proof.
  apply list_eq. intros i. rewrite list_lookup_fmap.
  destruct (data !! i) as [x|] eqn:Hi.
  - rewrite (proj2 (lookup_seq 0 (length data) i i)).
    + simpl. f_equal. by apply window_mean_one.
    + split; [done|]. by apply lookup_lt_Some in Hi.
  - rewrite lookup_seq_ge; [done|]. by apply lookup_ge_None in Hi.
Qed.

(** C7.  For [1 <= w <= len(data)] smoothing returns the box filter:
    [len(data) - (w - 1)] samples, sample [i] being the sum of the [w]
    samples from [i] on, each weighted [1 / w]; with [w = 1] the output
    is the input. *)
Theorem smooth_is_moving_average (data : list num) (w : Z) :
  (1 <= w <= Z.of_nat (length data))%Z ->
  ∃ out, DV._smooth data w = Ok out
    ∧ (Z.of_nat (length out) = Z.of_nat (length data) - (w - 1))%Z
    ∧ (∀ i, (i < length out)%nat -> out !! i = Some (window_mean data w i))
    ∧ (w = 1%Z -> out = data).
Proof.
  intros Hw. eexists. split; [by apply smooth_in_range|].
  rewrite length_fmap, length_seq. split; [lia|]. split.
  - intros i Hi. rewrite list_lookup_fmap.
    by rewrite (proj2 (lookup_seq 0 _ i i)) by (split; [done|lia]).
  - intros ->. change (Z.to_nat 1) with 1%nat.
    replace (length data - 1 + 1)%nat with (length data) by lia.
    apply window_mean_one_all.
Qed.

Lemma smooth_is_moving_average_witness :
  (1 <= 2 <= Z.of_nat (length [fin 1 1; fin 2 1; fin 4 1]))%Z
  ∧ ∃ out, DV._smooth [fin 1 1; fin 2 1; fin 4 1] 2 = Ok out
    ∧ (Z.of_nat (length out)
       = Z.of_nat (length [fin 1 1; fin 2 1; fin 4 1]) - (2 - 1))%Z
    ∧ (∀ i, (i < length out)%nat ->
            out !! i = Some (window_mean [fin 1 1; fin 2 1; fin 4 1] 2 i))
    ∧ (2%Z = 1%Z -> out = [fin 1 1; fin 2 1; fin 4 1]).
Proof.
  split; [simpl; lia|].
  apply (smooth_is_moving_average [fin 1 1; fin 2 1; fin 4 1] 2).
  simpl; lia.
Defined.

(** C8 as the spec has it fails: a window longer than the data raises
    nothing (numpy swaps the two arrays), and a window of size zero
    raises numpy's [ValueError], not [InvalidInputError]. *)
Lemma smooth_window_errors_counterexample :
  (Z.of_nat (length [fin 1 1; fin 2 1]) < 3)%Z
  ∧ DV._smooth [fin 1 1; fin 2 1] 3 = Ok [fin 1 1; fin 1 1]
  ∧ DV._smooth [fin 1 1; fin 2 1] 0 = Raise ValueError
  ∧ DV._smooth [fin 1 1; fin 2 1] 0 ≠ Raise InvalidInputError.
Proof.
  split; [simpl; lia|]. split; [by_compute|]. split; by_compute.
Qed.

(** C8, amended.  Smoothing has no guard of its own: it raises numpy's
    [ValueError], never [InvalidInputError], and does so exactly when
    [window_size <= 0] or the data is empty; a window longer than
    non-empty data raises nothing and yields
    [window_size - len(data) + 1] samples. *)
Theorem smooth_raises_value_error_only (data : list num) (w : Z) :
  (DV._smooth data w = Raise ValueError <-> (w <= 0)%Z ∨ data = [])
  ∧ (∀ e, DV._smooth data w = Raise e -> e = ValueError)
  ∧ ((Z.of_nat (length data) < w)%Z -> data ≠ [] ->
     ∃ out, DV._smooth data w = Ok out
       ∧ (Z.of_nat (length out) = w - Z.of_nat (length data) + 1)%Z).
Proof.
  assert (Hlen0 : length data = 0%nat <-> data = []).
  { by destruct data. }
  destruct (decide (w < 0)%Z) as [Hneg|Hnn].
  { assert (Hr : DV._smooth data w = Raise ValueError).
    { unfold DV._smooth, np.ones. by rewrite bool_decide_eq_true_2. }
    rewrite Hr. split; [split; [intros _; left; lia|done]|].
    split; [by intros e [= <-]|]. intros Hlt _. lia. }
  rewrite smooth_unfold by lia. unfold np.convolve_valid.
  rewrite length_replicate.
  destruct (decide (length data < Z.to_nat w)%nat) as [Hsw|Hsw].
  - rewrite (bool_decide_eq_true_2 _ Hsw). rewrite length_replicate.
    rewrite (bool_decide_eq_false_2 (Z.to_nat w = 0)%nat) by lia.
    destruct (decide (length data = 0)%nat) as [He|He].
    + rewrite (bool_decide_eq_true_2 _ He).
      split; [split; [intros _; right; by apply Hlen0|done]|].
      split; [by intros e [= <-]|]. intros _ Hne.
      by apply Hlen0 in He.
    + rewrite (bool_decide_eq_false_2 _ He).
      split; [split; [done|intros [?|?%Hlen0]; lia]|].
      split; [done|]. intros _ _. eexists. split; [done|].
      rewrite length_fmap, length_seq. lia.
  - rewrite (bool_decide_eq_false_2 _ Hsw).
    destruct (decide (length data = 0)%nat) as [He|He].
    + rewrite (bool_decide_eq_true_2 _ He).
      split; [split; [intros _; right; by apply Hlen0|done]|].
      split; [by intros e [= <-]|]. intros Hlt. lia.
    + rewrite (bool_decide_eq_false_2 _ He). rewrite length_replicate.
      destruct (decide (Z.to_nat w = 0)%nat) as [Hw|Hw].
      * rewrite (bool_decide_eq_true_2 _ Hw).
        split; [split; [intros _; left; lia|done]|].
        split; [by intros e [= <-]|]. intros Hlt. lia.
      * rewrite (bool_decide_eq_false_2 _ Hw).
        split; [split; [done|intros [?|?%Hlen0]; lia]|].
        split; [done|]. intros Hlt. lia.
Qed.

(** ** The raw curve of a linear voltage *)

Section LinearCurve.

Lemma at_fin (t : list Qc) (i : nat) :
  (i < length t)%nat -> (Fin <$> t) @ i = Fin (qat t i).
Proof.
  intros Hi. unfold at_, qat. rewrite nth_lookup, list_lookup_fmap.
  destruct (lookup_lt_is_Some_2 t i Hi) as [x ->]. done.
Qed.

Lemma qat_step (d : Qc) (t : list Qc) (i : nat) :
  const_step d t -> (S i < length t)%nat -> qat t (S i) = qat t i + d.
Proof.
  intros Hstep Hi. unfold qat.
  destruct (lookup_lt_is_Some_2 t i ltac:(lia)) as [x Hx].
  destruct (lookup_lt_is_Some_2 t (S i) Hi) as [y Hy].
  rewrite Hx, Hy. simpl. by apply (Hstep i).
Qed.

Lemma fmap_seq_const {A} (g : nat -> A) (c : A) (n : nat) :
  (∀ i, (i < n)%nat -> g i = c) -> g <$> seq 0 n = replicate n c.
Proof.
  intros Hg. apply list_eq. intros i. rewrite list_lookup_fmap.
  destruct (decide (i < n)%nat) as [Hi|Hi].
  - rewrite (proj2 (lookup_seq 0 n i i)) by (split; [done|lia]).
    rewrite (proj2 (lookup_replicate n c c i)) by done.
    simpl. by rewrite Hg.
  - rewrite lookup_seq_ge by lia. symmetry.
    apply lookup_replicate_None. lia.
Qed.

Lemma two_ne_zero : Q2Qc (inject_Z 2) ≠ 0.
Proof. by_compute. Qed.

(** The numerical gradient of an arithmetic progression is its step. *)
Lemma gradient_const_step (d : Qc) (t : list Qc) :
  (2 <= length t)%nat -> const_step d t ->
  np.gradient (Fin <$> t) = Ok (replicate (length t) (Fin d)).
Proof.
  intros Hn Hstep. unfold np.gradient. rewrite length_fmap.
  rewrite bool_decide_eq_false_2 by lia. f_equal.
  apply fmap_seq_const. intros i Hi.
  destruct (decide (i = 0)%nat) as [->|Hi0].
  { rewrite bool_decide_eq_true_2 by done.
    rewrite div_one_r, !at_fin by lia. rewrite sub_fin.
    rewrite (qat_step d) by (done || lia). f_equal. ring. }
  rewrite (bool_decide_eq_false_2 (i = 0)%nat) by done.
  destruct (decide (i = length t - 1)%nat) as [Hil|Hil].
  { rewrite bool_decide_eq_true_2 by done.
    rewrite div_one_r, !at_fin by lia. rewrite sub_fin.
    replace (length t - 1)%nat with (S (length t - 2)) by lia.
    rewrite (qat_step d) by (done || lia). f_equal. ring. }
  rewrite bool_decide_eq_false_2 by done.
  rewrite !at_fin by lia. rewrite sub_fin.
  replace (i + 1)%nat with (S (S (i - 1))) by lia.
  rewrite !(qat_step d) by (done || lia).
  unfold of_Z. rewrite div_fin by apply two_ne_zero. f_equal.
  change (Q2Qc (inject_Z 2)) with (1 + 1). field. discriminate.
Qed.

Lemma const_step_affine (a b h : Qc) (s : list Qc) :
  const_step h s -> const_step (a * h) ((fun x => a * x + b) <$> s).
Proof.
  intros Hstep i x y. rewrite !list_lookup_fmap.
  destruct (s !! i) as [x'|] eqn:Hx; [|done].
  destruct (s !! S i) as [y'|] eqn:Hy; [|done].
  simpl. intros [= <-] [= <-]. rewrite (Hstep i x' y' Hx Hy). ring.
Qed.

End LinearCurve.

Lemma gradient_numerical (f : list num) :
  (2 <= length f)%nat ->
  np.gradient f = Ok (numerical_gradient f <$> seq 0 (length f)).
Proof.
  intros Hn. unfold np.gradient. rewrite bool_decide_eq_false_2 by lia.
  f_equal. apply list_fmap_ext. intros _ i _. unfold numerical_gradient.
  repeat case_bool_decide; by rewrite ?div_one_r.
Qed.

Lemma nth_fmap_seq (g : nat -> num) (n i : nat) :
  (i < n)%nat -> (g <$> seq 0 n) @ i = g i.
Proof.
  intros Hi. unfold at_. rewrite nth_lookup, list_lookup_fmap.
  by rewrite (proj2 (lookup_seq 0 n i i)) by (split; [done|lia]).
Qed.

(** The raw curve of an analyzer with at least two samples. *)
Lemma raw_dv_ratio (v c s : list num) (self : DVAnalyzer) :
  DV.__init__ v c s = Ok self ->
  (2 <= length v)%nat ->
  DV.raw_dv self
  = Ok ((fun i => (numerical_gradient v i / numerical_gradient s i)%num)
        <$> seq 0 (length v)).
Proof.
  intros Hinit Hn.
  destruct (init_cases v c s) as [[_ Hr]|[Hvalid Hr]];
    rewrite Hr in Hinit; [done|]. injection Hinit as <-.
  assert (Hlen : length s = length v).
  { destruct (decide (length v = length s)) as [->|Hne]; [done|].
    exfalso. apply Hvalid. left. by right. }
  unfold DV.raw_dv. cbn [voltage soc].
  rewrite (gradient_numerical v), (gradient_numerical s) by lia.
  cbn [mbind result_bind]. unfold np.divide.
  rewrite !length_fmap, !length_seq, Hlen.
  rewrite bool_decide_eq_true_2 by done. f_equal.
  apply list_eq. intros i.
  rewrite lookup_zip_with, !list_lookup_fmap.
  by destruct (seq 0 (length v) !! i).
Qed.

(** C2 as the spec has it fails in binary64.  The voltage
    [(2^53 + 1) * soc - (2^53 + 2)] over the SOC values 0, 1 and 2 is a
    valid triple of binary64 numbers, linear in SOC with the constant
    step 1; every difference of two of its samples rounds, and every
    sample of the raw curve is [2^53], not the slope.  On the decimal
    samples 3.0, 3.1, 3.2 over 0, 0.2, 0.4 every sample of the raw curve
    is 0.5000000000000004, not 0.5. *)
Lemma raw_curve_rounding_counterexample :
  (F64._validate_input F64.steep_volts F64.unit_amps F64.unit_socs = Ok ()
   ∧ F64.raw_dv F64.steep_volts F64.unit_socs
     = Ok [F64.two_to_53; F64.two_to_53; F64.two_to_53]
   ∧ DV.raw_dv
       {| voltage := [of_Z (- (2 ^ 53 + 2)); of_Z (-1); of_Z (2 ^ 53)];
          current := [of_Z 1; of_Z 1; of_Z 1];
          soc := [of_Z 0; of_Z 1; of_Z 2];
          dv_curve_ := None; degradation_modes_ := None |}
     = Ok [of_Z (2 ^ 53 + 1); of_Z (2 ^ 53 + 1); of_Z (2 ^ 53 + 1)])
  ∧ (F64._validate_input F64.decimal_volts F64.unit_amps F64.decimal_socs
     = Ok ()
     ∧ F64.raw_dv F64.decimal_volts F64.decimal_socs
       = Ok [F64.half_and_a_bit; F64.half_and_a_bit; F64.half_and_a_bit]
     ∧ PrimFloat.eqb F64.half_and_a_bit F64.half = false).
Proof.
  split; [split; [by vm_compute|split; [by vm_compute|by_compute]]|].
  split; [by vm_compute|]. split; by vm_compute.
Qed.

(** C2, amended.  For an analyzer of at least two samples the raw curve
    is as long as the input, and its sample at [i] is the numerical
    gradient of the voltage at [i] divided by that of SOC at [i].  When
    SOC advances by a constant [h > 0] and the voltage is
    [a * soc + b], this ratio is the slope [a] in exact arithmetic. *)
Theorem raw_curve_is_ratio_of_gradients
    (v c s : list num) (self : DVAnalyzer) :
  DV.__init__ v c s = Ok self ->
  (2 <= length v)%nat ->
  ∃ curve,
    DV.raw_dv self = Ok curve
    ∧ length curve = length v
    ∧ (∀ i, (i < length v)%nat ->
            curve @ i
            = (numerical_gradient v i / numerical_gradient s i)%num)
    ∧ (∀ (t : list Qc) (a b h : Qc),
         s = Fin <$> t -> v = (fun x => Fin (a * x + b)) <$> t ->
         0 < h -> const_step h t ->
         curve = replicate (length v) (Fin a)).
Proof.
  intros Hinit Hn. eexists. split; [by apply (raw_dv_ratio v c s)|].
  split; [by rewrite length_fmap, length_seq|].
  split; [intros i Hi; by apply nth_fmap_seq|].
  intros t a b h -> Hv Hh Hstep.
  assert (Hlen : length t = length v) by (by rewrite Hv, length_fmap).
  assert (Hv' : v = Fin <$> ((fun x => a * x + b) <$> t)).
  { rewrite Hv. by rewrite <- list_fmap_compose. }
  assert (Hh0 : h ≠ 0).
  { intros ->. by apply Qclt_not_eq in Hh. }
  assert (Hgv : np.gradient v = Ok (replicate (length v) (Fin (a * h)))).
  { rewrite Hv'.
    rewrite (gradient_const_step (a * h))
      by (rewrite ?length_fmap; auto using const_step_affine; lia).
    by rewrite !length_fmap. }
  assert (Hgs : np.gradient (Fin <$> t)
                = Ok (replicate (length v) (Fin h))).
  { rewrite <- Hlen. apply gradient_const_step; [lia|done]. }
  rewrite (gradient_numerical v) in Hgv by done.
  rewrite (gradient_numerical (Fin <$> t)) in Hgs
    by (rewrite length_fmap; lia).
  rewrite length_fmap, Hlen in Hgs.
  injection Hgv as Hgv. injection Hgs as Hgs.
  apply list_eq. intros i. rewrite list_lookup_fmap.
  destruct (decide (i < length v)%nat) as [Hi|Hi].
  - rewrite (proj2 (lookup_seq 0 (length v) i i)) by (split; [done|lia]).
    rewrite (proj2 (lookup_replicate _ _ (Fin a) i)) by done.
    cbn [fmap option_fmap option_map]. f_equal.
    assert (Hvi : numerical_gradient v i = Fin (a * h)).
    { rewrite <- (nth_fmap_seq (numerical_gradient v) (length v) i Hi).
      rewrite Hgv. unfold at_. rewrite nth_lookup.
      by rewrite (proj2 (lookup_replicate _ _ (Fin (a * h)) i)). }
    assert (Hsi : numerical_gradient (Fin <$> t) i = Fin h).
    { rewrite <- (nth_fmap_seq (numerical_gradient (Fin <$> t))
                               (length v) i Hi).
      rewrite Hgs. unfold at_. rewrite nth_lookup.
      by rewrite (proj2 (lookup_replicate _ _ (Fin h) i)). }
    rewrite Hvi, Hsi, div_fin by done. f_equal. by field.
  - rewrite lookup_seq_ge by lia. symmetry.
    apply lookup_replicate_None. lia.
Qed.

Lemma raw_curve_is_ratio_of_gradients_witness :
  let t := [qc 0 1; qc 1 5; qc 2 5] in
  let v := (fun x => Fin (qc 1 2 * x + qc 3 1)) <$> t in
  let c := [fin 1 1; fin 1 1; fin 1 1] in
  let self := {| voltage := v; current := c; soc := Fin <$> t;
                 dv_curve_ := None; degradation_modes_ := None |} in
  DV.__init__ v c (Fin <$> t) = Ok self
  ∧ (2 <= length v)%nat
  ∧ 0 < qc 1 5
  ∧ const_step (qc 1 5) t
  ∧ ∃ curve,
      DV.raw_dv self = Ok curve
      ∧ length curve = length v
      ∧ (∀ i, (i < length v)%nat ->
              curve @ i
              = (numerical_gradient v i
                 / numerical_gradient (Fin <$> t) i)%num)
      ∧ curve = [Fin (qc 1 2); Fin (qc 1 2); Fin (qc 1 2)].
Proof.
  intros t v c self.
  assert (H1 : DV.__init__ v c (Fin <$> t) = Ok self) by by_compute.
  assert (H2 : (2 <= length v)%nat) by (simpl; lia).
  assert (H3 : 0 < qc 1 5) by by_compute.
  assert (H4 : const_step (qc 1 5) t).
  { intros [|[|[|i]]] x y Hx Hy; simpl in Hx, Hy; simplify_eq; by_compute. }
  split; [exact H1|]. split; [exact H2|]. split; [exact H3|].
  split; [exact H4|].
  destruct (raw_curve_is_ratio_of_gradients v c (Fin <$> t) self H1 H2)
    as (curve & Hraw & Hlen & Hat & Hlin).
  exists curve. split; [exact Hraw|]. split; [exact Hlen|].
  split; [exact Hat|].
  exact (Hlin t (qc 1 2) (qc 3 1) (qc 1 5) eq_refl eq_refl H3 H4).
Defined.

(** ** The SOH reduction *)

Lemma reduction_ratio (c d : list num) (cf cl df dl : num) :
  head c = Some cf -> last c = Some cl ->
  head d = Some df -> last d = Some dl ->
  SOH.calculate_capacity_soh_velocity_threshold (PArr c) (PArr d)
  = Ok (PFloat ((cl - cf) / (dl - df))%num)
  ∧ SOH.calculate_energy_soh_flow_theory (PArr c) (PArr d)
    = Ok (PFloat ((cl - cf) / (dl - df))%num).
Proof.
  intros Hcf Hcl Hdf Hdl.
  unfold SOH.calculate_capacity_soh_velocity_threshold,
    SOH.calculate_energy_soh_flow_theory, Py.first, Py.last.
  by rewrite Hcf, Hcl, Hdf, Hdl.
Qed.

(** C1 as the spec has it fails: identical accumulators that end in NaN
    (the gap marker the voltage window writes) or in an infinity have a
    last value distinct from the first, and the reduction yields NaN. *)
Lemma soh_identical_arrays_counterexample :
  (last [fin 0 1; NaN] ≠ head [fin 0 1; NaN]
   ∧ SOH.calculate_capacity_soh_velocity_threshold
       (PArr [fin 0 1; NaN]) (PArr [fin 0 1; NaN]) = Ok (PFloat NaN)
   ∧ SOH.calculate_capacity_soh_velocity_threshold
       (PArr [fin 0 1; NaN]) (PArr [fin 0 1; NaN]) ≠ Ok (PFloat (fin 1 1)))
  ∧ (last [fin 0 1; PInf] ≠ head [fin 0 1; PInf]
     ∧ SOH.calculate_capacity_soh_velocity_threshold
         (PArr [fin 0 1; PInf]) (PArr [fin 0 1; PInf]) = Ok (PFloat NaN)).
Proof.
  split; [split; [by_compute|split; by_compute]|].
  split; by_compute.
Qed.

(** *** Division of a binary64 number by itself *)

Section Binary64.

Import PrimFloat SpecFloat FloatOps FloatAxioms.

Lemma div_eucl_shifted_self (m : positive) :
  Z.div_eucl (Z.shiftl (Zpos m) 53) (Zpos m) = (2 ^ 53, 0)%Z.
Proof.
  rewrite Z.shiftl_mul_pow2 by lia.
  pose proof (Z.div_eucl_eq (Z.pos m * 2 ^ 53) (Z.pos m) ltac:(lia)) as Heq.
  pose proof (Z.mod_pos_bound (Z.pos m * 2 ^ 53) (Z.pos m) ltac:(lia)) as Hb.
  unfold Z.modulo in Hb.
  destruct (Z.div_eucl (Z.pos m * 2 ^ 53) (Z.pos m)) as [q r].
  assert (r = 0 ∧ q = 2 ^ 53)%Z as [-> ->]; [|done].
  assert (Z.pos m * (2 ^ 53 - q) = r)%Z as Hr by lia.
  assert (2 ^ 53 - q = 0)%Z by nia. split; nia.
Qed.

Lemma finite_nonzero_spec (x : float) :
  F64.finite_nonzero x -> ∃ s m e, Prim2SF x = S754_finite s m e.
Proof.
  unfold F64.finite_nonzero, is_finite, is_nan, is_infinity, is_zero.
  rewrite !eqb_spec, abs_spec. intros [Hfin Hnz].
  destruct (Prim2SF x) as [s|s| |s m e]; [| | |by eauto].
  - by destruct s.
  - by destruct s.
  - done.
Qed.

(** The quotient of a finite binary64 number other than zero by itself
    is exactly 1: the shifted mantissa divides without remainder, and
    nothing is left to round. *)
Lemma div_self_binary64 (x : float) :
  F64.finite_nonzero x -> (x / x)%float = F64.one.
Proof.
  intros (s & m & e & Hx)%finite_nonzero_spec.
  apply Prim2SF_inj. rewrite div_spec, Hx.
  unfold SF64div, SFdiv, SFdiv_core_binary.
  replace (Zdigits2 (Z.pos m) + e - (Zdigits2 (Z.pos m) + e))%Z
    with 0%Z by lia.
  replace (e - e)%Z with 0%Z by lia.
  change (Z.min (fexp prec emax 0) 0) with (-53)%Z.
  change (0 - -53)%Z with 53%Z.
  cbv iota beta. rewrite div_eucl_shifted_self.
  assert (new_location (Z.pos m) 0 = loc_Exact) as ->.
  { unfold new_location. by destruct (Z.even (Z.pos m)). }
  by destruct s.
Qed.

End Binary64.

(** In binary64 the difference of two finite end values can overflow:
    on identical accumulators that run from [-1e308] to [1e308] the
    difference is infinite and the reduction yields NaN. *)
Lemma soh_identical_arrays_overflow :
  Forall (fun x => PrimFloat.is_finite x = true) F64.wide_accumulator
  ∧ F64.calculate_capacity_soh_velocity_threshold
      F64.wide_accumulator F64.wide_accumulator = Some PrimFloat.nan.
Proof. split; [by repeat constructor|by vm_compute]. Qed.

(** C1, amended.  Both reductions return
    [(last charge - first charge) / (last discharge - first discharge)].
    For identical accumulators this is [d / d] for the one difference
    [d] of the last and the first value: exactly 1 when [d] is finite
    and not zero, and NaN when [d] is zero, infinite or NaN.  The same
    holds of the binary64 evaluation, in which [d] is infinite also
    when the subtraction overflows. *)
Theorem soh_reduction_is_ratio (c d : list num) (cf cl df dl : num) :
  head c = Some cf -> last c = Some cl ->
  head d = Some df -> last d = Some dl ->
  let ratio := ((cl - cf) / (dl - df))%num in
  SOH.calculate_capacity_soh_velocity_threshold (PArr c) (PArr d)
  = Ok (PFloat ratio)
  ∧ SOH.calculate_energy_soh_flow_theory (PArr c) (PArr d)
    = Ok (PFloat ratio)
  ∧ (c = d ->
     ratio = ((cl - cf) / (cl - cf))%num
     ∧ (∀ q, (cl - cf)%num = Fin q -> q ≠ 0 -> ratio = of_Z 1)
     ∧ ((cl - cf)%num = of_Z 0 ∨ Num.is_finite (cl - cf)%num = false ->
        ratio = NaN))
  ∧ (∀ (a : list PrimFloat.float) (af al : PrimFloat.float),
       head a = Some af -> last a = Some al ->
       let diff := PrimFloat.sub al af in
       F64.calculate_capacity_soh_velocity_threshold a a
       = Some (PrimFloat.div diff diff)
       ∧ F64.calculate_energy_soh_flow_theory a a
         = Some (PrimFloat.div diff diff)
       ∧ (F64.finite_nonzero diff -> PrimFloat.div diff diff = F64.one)).
Proof.
  intros Hcf Hcl Hdf Hdl ratio.
  destruct (reduction_ratio c d cf cl df dl Hcf Hcl Hdf Hdl) as [Hv He].
  split; [exact Hv|]. split; [exact He|]. split.
  - intros ->. unfold ratio.
    assert (df = cf) as -> by congruence.
    assert (dl = cl) as -> by congruence.
    split; [done|]. split.
    + intros q -> Hq. by apply div_self.
    + intros [->|Hinf]; [by_compute|].
      by destruct (cl - cf)%num.
  - intros a af al Haf Hal diff.
    unfold F64.calculate_capacity_soh_velocity_threshold,
      F64.calculate_energy_soh_flow_theory.
    rewrite Haf, Hal. split; [done|]. split; [done|].
    apply div_self_binary64.
Qed.

Lemma soh_reduction_is_ratio_witness :
  let c := [fin 0 1; fin 10 1; fin 40 1] in
  head c = Some (fin 0 1)
  ∧ last c = Some (fin 40 1)
  ∧ (fin 40 1 - fin 0 1)%num = Fin (qc 40 1)
  ∧ qc 40 1 ≠ 0
  ∧ SOH.calculate_capacity_soh_velocity_threshold (PArr c) (PArr c)
    = Ok (PFloat (of_Z 1))
  ∧ SOH.calculate_energy_soh_flow_theory (PArr c) (PArr c)
    = Ok (PFloat (of_Z 1)).
Proof.
  intros c.
  assert (H1 : head c = Some (fin 0 1)) by reflexivity.
  assert (H2 : last c = Some (fin 40 1)) by reflexivity.
  assert (H3 : (fin 40 1 - fin 0 1)%num = Fin (qc 40 1)) by by_compute.
  assert (H4 : qc 40 1 ≠ 0) by by_compute.
  split; [exact H1|]. split; [exact H2|]. split; [exact H3|].
  split; [exact H4|].
  destruct (soh_reduction_is_ratio c c (fin 0 1) (fin 40 1)
              (fin 0 1) (fin 40 1) H1 H2 H1 H2)
    as (Hcap & Hen & Hsame & _).
  destruct (Hsame eq_refl) as (_ & Hone & _).
  rewrite Hcap, Hen, (Hone (qc 40 1) H3 H4). split; reflexivity.
Defined.

(** ** Integration and the two SOH entry points *)

Section Integration.

Variable config : SOHConfig.

Lemma length_cumsum_from (acc : num) (a : list num) :
  length (scipy.cumsum_from acc a) = length a.
Proof. revert acc. induction a as [|x a IH]; intros acc; simpl; auto. Qed.

Lemma length_cumsum (a : list num) : length (scipy.cumsum a) = length a.
Proof. destruct a; simpl; [done|]. by rewrite length_cumsum_from. Qed.

Lemma length_diff (a : list num) : length (np.diff a) = (length a - 1)%nat.
Proof. unfold np.diff. rewrite length_zip_with, length_drop. lia. Qed.

(** What the trapezoid routine returns starts with the initial value,
    and has two items only for two samples over two instants. *)
Lemma cumtrapz_shape (y : pyval) (x r : list num) :
  scipy.cumtrapz y x = Ok r ->
  ∃ ys tl, y = PArr ys ∧ r = of_Z 0 :: tl
           ∧ (length tl = 1%nat -> length ys = 2%nat ∧ length x = 2%nat).
Proof.
  destruct y as [| |ys]; try done. unfold scipy.cumtrapz.
  case_bool_decide as Hlen; [done|]. intros [= <-].
  eexists _, _. split; [done|]. split; [done|].
  rewrite length_cumsum, !length_zip_with, length_drop.
  rewrite length_diff in *. lia.
Qed.

Lemma unpack2_shape (r : list num) (a b : num) :
  Py.unpack2 r = Ok (a, b) -> r = [a; b].
Proof. destruct r as [|? [|? [|? ?]]]; simpl; congruence. Qed.

(** Unpacking the single array the trapezoid routine returns into two
    names leaves [integrate_charge_discharge] with two outcomes: the
    error branch, or, for exactly two samples, the two leading zeros as
    scalars.  It never returns arrays. *)
Lemma integrate_cases (data : pyval) (time : list num) :
  SOH.integrate_charge_discharge data time = Ok (PNone, PNone)
  ∨ (SOH.integrate_charge_discharge data time
     = Ok (PFloat (of_Z 0), PFloat (of_Z 0))
     ∧ length time = 2%nat
     ∧ ∃ ys, data = PArr ys ∧ length ys = 2%nat).
Proof.
  unfold SOH.integrate_charge_discharge.
  destruct (scipy.cumtrapz data time) as [r|e] eqn:Hr; [|by left].
  destruct (cumtrapz_shape _ _ _ Hr) as (ys & tl & -> & -> & Hlen).
  cbn [mbind result_bind].
  destruct tl as [|b [|b' tl]]; try (by left).
  destruct (Hlen eq_refl) as [Hys Ht].
  cbn [mbind result_bind Py.unpack2 Py.neg].
  destruct (scipy.cumtrapz (PArr (Num.neg <$> ys)) time) as [r'|e] eqn:Hr';
    [|by left].
  destruct (cumtrapz_shape _ _ _ Hr') as (ys' & tl' & _ & -> & _).
  cbn [mbind result_bind].
  destruct tl' as [|c [|c' tl']]; try (by left).
  right. split; [done|]. split; [done|]. by exists ys.
Qed.

Lemma window_shape (data time : list num) :
  SOH.apply_voltage_window config data time = Ok PNone
  ∨ ∃ w, SOH.apply_voltage_window config data time = Ok (PArr w)
         ∧ length w = length data.
Proof.
  unfold SOH.apply_voltage_window.
  destruct (voltage_window config) as [[lo hi]|]; [|by left].
  right. eexists. split; [done|]. by rewrite length_fmap.
Qed.

Lemma validate_none :
  SOH.validate_cutoff_conditions config PNone PNone = Ok false.
Proof.
  unfold SOH.validate_cutoff_conditions.
  by destruct (cutoff_charge config), (cutoff_discharge config).
Qed.

Lemma validate_total (charge discharge : pyval) :
  ∃ b, SOH.validate_cutoff_conditions config charge discharge = Ok b.
Proof.
  unfold SOH.validate_cutoff_conditions.
  destruct (_ ← config_get (cutoff_charge config); _) as [b|e];
    [by exists b|by exists false].
Qed.

(** A scalar cannot be indexed: on scalars both reductions take their
    error branch. *)
Lemma reduction_of_scalars (x y : num) :
  SOH.calculate_capacity_soh_velocity_threshold (PFloat x) (PFloat y)
  = Ok PNone
  ∧ SOH.calculate_energy_soh_flow_theory (PFloat x) (PFloat y) = Ok PNone.
Proof. done. Qed.

Lemma pipeline_none (data : pyval) (time : list num)
    (reduce : pyval -> pyval -> result pyval) :
  (∀ x y, reduce (PFloat x) (PFloat y) = Ok PNone) ->
  try_except
    ('(charge, discharge) ← SOH.integrate_charge_discharge data time;
     ok ← SOH.validate_cutoff_conditions config charge discharge;
     if negb ok then Ok PNone else reduce charge discharge)
    (fun _ => Ok PNone) = Ok PNone.
Proof.
  intros Hred.
  destruct (integrate_cases data time) as [->|[-> _]];
    cbn [mbind result_bind].
  - by rewrite validate_none.
  - destruct (validate_total (PFloat (of_Z 0)) (PFloat (of_Z 0)))
      as [[|] ->]; cbn [mbind result_bind negb]; [|done].
    by rewrite Hred.
Qed.

Lemma capacity_soh_none (frame : DataFrame) :
  SOH.calculate_capacity_soh config frame = Ok PNone.
Proof.
  unfold SOH.calculate_capacity_soh, Py.column.
  destruct (frame !! "capacity") as [q|]; [|done].
  destruct (frame !! "time") as [t|]; [|done].
  cbn [mbind result_bind].
  destruct (window_shape q t) as [->|(w & -> & _)]; cbn [mbind result_bind];
    apply pipeline_none; intros; apply reduction_of_scalars.
Qed.

Lemma energy_soh_none (frame : DataFrame) :
  SOH.calculate_energy_soh config frame = Ok PNone.
Proof.
  unfold SOH.calculate_energy_soh, Py.column.
  destruct (frame !! "energy") as [q|]; [|done].
  destruct (frame !! "time") as [t|]; [|done].
  cbn [mbind result_bind].
  destruct (window_shape q t) as [->|(w & -> & _)]; cbn [mbind result_bind];
    apply pipeline_none; intros; apply reduction_of_scalars.
Qed.

(** With a series and a time axis of different lengths, or an empty one,
    the integration stage itself ends in its error branch. *)
Lemma integrate_mismatch (quantity time : list num) (data : pyval) :
  length quantity ≠ length time ∨ quantity = [] ∨ time = [] ->
  SOH.apply_voltage_window config quantity time = Ok data ->
  SOH.integrate_charge_discharge data time = Ok (PNone, PNone).
Proof.
  intros Hbad Hwin.
  destruct (integrate_cases data time) as [Hn|(_ & Ht & ys & -> & Hys)];
    [done|exfalso].
  destruct (window_shape quantity time) as [Hw|(w & Hw & Hlen)];
    rewrite Hw in Hwin; simplify_eq.
  destruct Hbad as [Hb|[-> | ->]]; simpl in *; lia.
Qed.

End Integration.

(** C3.  On five samples over five instants the trapezoid routine does
    produce the running integral [0, 5, 20, 45, 80], starting at zero
    and as long as the input; but [integrate_charge_discharge] unpacks
    that one array into two names, which fails, and returns
    [(None, None)] instead of the charge and discharge arrays.  For no
    input does it return arrays. *)
Theorem integrate_returns_no_arrays :
  let data := [fin 0 1; fin 10 1; fin 20 1; fin 30 1; fin 40 1] in
  let time := [fin 0 1; fin 1 1; fin 2 1; fin 3 1; fin 4 1] in
  scipy.cumtrapz (PArr data) time
  = Ok [fin 0 1; fin 5 1; fin 20 1; fin 45 1; fin 80 1]
  ∧ SOH.integrate_charge_discharge (PArr data) time = Ok (PNone, PNone)
  ∧ ∀ d t charge discharge,
      SOH.integrate_charge_discharge d t ≠ Ok (PArr charge, PArr discharge).
Proof.
  intros data time. split; [by_compute|]. split; [by_compute|].
  intros d t charge discharge Heq.
  destruct (integrate_cases d t) as [Hn|[Hs _]]; congruence.
Qed.

(** On one-dimensional arrays the integration stage of this section
    is the one of [SOH]. *)
Lemma integrate_one_dimensional (w t : list num) :
  SOHnd.integrate_charge_discharge (Some (A1 w)) (A1 t)
  = SOH.integrate_charge_discharge (PArr w) t.
Proof.
  unfold SOHnd.integrate_charge_discharge, SOH.integrate_charge_discharge.
  cbn [SOHnd.cumtrapz SOHnd.neg Py.neg].
  destruct (scipy.cumtrapz (PArr w) t) as [r|e]; [|done].
  cbn [mbind result_bind SOHnd.unpack2].
  destruct (Py.unpack2 r) as [[x y]|e]; [|done].
  cbn [mbind result_bind SOHnd.cumtrapz].
  destruct (scipy.cumtrapz (PArr (Num.neg <$> w)) t) as [r'|e]; [|done].
  cbn [mbind result_bind SOHnd.unpack2].
  by destruct (Py.unpack2 r') as [[x' y']|e].
Qed.

(** With a one-dimensional series, whatever the time axis, the
    integration stage yields [(None, None)] or two scalar zeros. *)
Lemma integrate_series_cases (data : option ndarray) (time : ndarray) :
  (∀ k rows, data ≠ Some (A2 k rows)) ->
  SOHnd.integrate_charge_discharge data time = Ok (PNone, PNone)
  ∨ SOHnd.integrate_charge_discharge data time
    = Ok (PFloat (of_Z 0), PFloat (of_Z 0)).
Proof.
  intros Hdim. destruct data as [[w|k rows]|]; [|by destruct (Hdim k rows)|].
  - destruct time as [t|kx xrows]; [|by left].
    rewrite integrate_one_dimensional.
    destruct (integrate_cases (PArr w) t) as [->|[-> _]]; auto.
  - by left.
Qed.

Lemma window_series (config : SOHConfig) (data time : ndarray) :
  (∀ k rows, data ≠ A2 k rows) ->
  ∃ w, SOHnd.apply_voltage_window config data time = Ok w
       ∧ ∀ k rows, w ≠ Some (A2 k rows).
Proof.
  intros Hdim. unfold SOHnd.apply_voltage_window.
  destruct (voltage_window config) as [[lo hi]|]; cbn.
  - destruct data as [a|k rows]; [|by destruct (Hdim k rows)].
    by eexists.
  - by eexists.
Qed.

Lemma values_series (frame : pandas.Frame) (name : string) :
  labelled_once frame name ->
  pandas.values frame name = Raise KeyError
  ∨ ∃ a, pandas.values frame name = Ok (A1 a).
Proof.
  unfold labelled_once, pandas.values.
  destruct (pandas.select frame name) as [|col [|col' cols]]; simpl;
    [by left|right; by eexists|lia].
Qed.

Lemma series_pipeline_none (config : SOHConfig) (frame : pandas.Frame)
    (name : string) (reduce : pyval -> pyval -> result pyval) :
  labelled_once frame name ->
  (∀ x y, reduce (PFloat x) (PFloat y) = Ok PNone) ->
  try_except
    (series ← pandas.values frame name;
     time ← pandas.values frame "time";
     series ← SOHnd.apply_voltage_window config series time;
     '(charge, discharge) ← SOHnd.integrate_charge_discharge series time;
     ok ← SOH.validate_cutoff_conditions config charge discharge;
     if negb ok then Ok PNone else reduce charge discharge)
    (fun _ => Ok PNone) = Ok PNone.
Proof.
  intros Honce Hred.
  destruct (values_series frame name Honce) as [->|[a ->]]; [done|].
  destruct (pandas.values frame "time") as [time|e]; [|done].
  cbn [mbind result_bind].
  destruct (window_series config (A1 a) time) as (w & -> & Hw); [done|].
  cbn [mbind result_bind].
  destruct (integrate_series_cases w time Hw) as [->| ->];
    cbn [mbind result_bind].
  - by rewrite validate_none.
  - destruct (validate_total config (PFloat (of_Z 0)) (PFloat (of_Z 0)))
      as [[|] ->]; cbn [mbind result_bind negb]; [|done].
    by rewrite Hred.
Qed.

(** C4 as the spec has it fails.  In a frame of two samples that gives
    the label of the series to two columns, [frame[label].values] has
    two rows and two columns, the trapezoid routine returns an array of
    that shape, the unpacking binds its two rows, the cutoff check
    passes, and the entry point returns a number, -1. *)
Lemma repeated_label_counterexample :
  pandas.values (twice_labelled "capacity") "capacity"
  = Ok (A2 2 [[fin 1 1; fin 3 1]; [fin 2 1; fin 4 1]])
  ∧ SOHnd.integrate_charge_discharge
      (Some (A2 2 [[fin 1 1; fin 3 1]; [fin 2 1; fin 4 1]]))
      (A1 [fin 0 1; fin 1 1])
    = Ok (PArr [fin 0 1; fin 2 1], PArr [fin 0 1; fin (-2) 1])
  ∧ SOHnd.calculate_capacity_soh wide_config (twice_labelled "capacity")
    = Ok (PFloat (fin (-1) 1))
  ∧ SOHnd.calculate_energy_soh wide_config (twice_labelled "energy")
    = Ok (PFloat (fin (-1) 1)).
Proof. repeat split; by_compute. Qed.

(** C4, amended.  For every configuration and every frame in which at
    most one column carries the label of the series, whatever its time
    axis, the entry point returns [None].  The integration stage yields
    [(None, None)] or, for exactly two samples, two scalars, because it
    unpacks the one array of the trapezoid routine into two names;
    [(None, None)] fails the cutoff check, and scalars cannot be
    indexed by the reduction. *)
Theorem soh_entry_points_always_none
    (config : SOHConfig) (frame : pandas.Frame) :
  (labelled_once frame "capacity" ->
   SOHnd.calculate_capacity_soh config frame = Ok PNone)
  ∧ (labelled_once frame "energy" ->
     SOHnd.calculate_energy_soh config frame = Ok PNone)
  ∧ (∀ data time,
       SOH.integrate_charge_discharge data time = Ok (PNone, PNone)
       ∨ (SOH.integrate_charge_discharge data time
          = Ok (PFloat (of_Z 0), PFloat (of_Z 0))
          ∧ length time = 2%nat
          ∧ ∃ ys, data = PArr ys ∧ length ys = 2%nat))
  ∧ (∀ w t, SOHnd.integrate_charge_discharge (Some (A1 w)) (A1 t)
            = SOH.integrate_charge_discharge (PArr w) t)
  ∧ SOH.validate_cutoff_conditions config PNone PNone = Ok false
  ∧ (∀ x y,
       SOH.calculate_capacity_soh_velocity_threshold (PFloat x) (PFloat y)
       = Ok PNone
       ∧ SOH.calculate_energy_soh_flow_theory (PFloat x) (PFloat y)
         = Ok PNone).
Proof.
  split.
  { intros Honce. apply (series_pipeline_none config frame "capacity");
      [done|]. intros; apply reduction_of_scalars. }
  split.
  { intros Honce. apply (series_pipeline_none config frame "energy");
      [done|]. intros; apply reduction_of_scalars. }
  split; [apply integrate_cases|]. split; [apply integrate_one_dimensional|].
  split; [apply validate_none|]. apply reduction_of_scalars.
Qed.

(** The frame of a series of two samples over two instants: the one
    case in which the integration stage returns scalars. *)
Lemma soh_entry_points_always_none_witness :
  let frame : pandas.Frame :=
    [("capacity", [fin 1 1; fin 2 1]); ("energy", [fin 3 1; fin 4 1]);
     ("time", [fin 0 1; fin 1 1])] in
  labelled_once frame "capacity"
  ∧ labelled_once frame "energy"
  ∧ SOHnd.calculate_capacity_soh wide_config frame = Ok PNone
  ∧ SOHnd.calculate_energy_soh wide_config frame = Ok PNone.
Proof.
  intros frame.
  assert (H1 : labelled_once frame "capacity")
    by (unfold labelled_once; vm_compute; lia).
  assert (H2 : labelled_once frame "energy")
    by (unfold labelled_once; vm_compute; lia).
  split; [exact H1|]. split; [exact H2|].
  destruct (soh_entry_points_always_none wide_config frame)
    as (Hcap & Hen & _).
  split; [exact (Hcap H1)|exact (Hen H2)].
Defined.

(** C10.  When the series and its time axis differ in length, or one of
    them is empty, the integration stage ends in its error branch and
    both entry points return [None]; no exception leaves them. *)
Theorem soh_mismatched_lengths_none
    (config : SOHConfig) (frame : DataFrame) (quantity time : list num) :
  length quantity ≠ length time ∨ quantity = [] ∨ time = [] ->
  frame !! "time" = Some time ->
  (∀ data, SOH.apply_voltage_window config quantity time = Ok data ->
           SOH.integrate_charge_discharge data time = Ok (PNone, PNone))
  ∧ (frame !! "capacity" = Some quantity ->
     SOH.calculate_capacity_soh config frame = Ok PNone)
  ∧ (frame !! "energy" = Some quantity ->
     SOH.calculate_energy_soh config frame = Ok PNone).
Proof.
  intros Hbad Htime. split.
  - intros data. by apply integrate_mismatch.
  - split; intros _; [apply capacity_soh_none|apply energy_soh_none].
Qed.

Lemma soh_mismatched_lengths_none_witness :
  (length [fin 0 1; fin 10 1; fin 20 1] ≠ length [fin 0 1; fin 1 1]
   ∨ [fin 0 1; fin 10 1; fin 20 1] = [] ∨ [fin 0 1; fin 1 1] = [])
  ∧ demo_frame !! "time" = Some [fin 0 1; fin 1 1]
  ∧ (∀ data,
       SOH.apply_voltage_window demo_config [fin 0 1; fin 10 1; fin 20 1]
                                [fin 0 1; fin 1 1] = Ok data ->
       SOH.integrate_charge_discharge data [fin 0 1; fin 1 1]
       = Ok (PNone, PNone))
  ∧ (demo_frame !! "capacity" = Some [fin 0 1; fin 10 1; fin 20 1] ->
     SOH.calculate_capacity_soh demo_config demo_frame = Ok PNone)
  ∧ (demo_frame !! "energy" = Some [fin 0 1; fin 10 1; fin 20 1] ->
     SOH.calculate_energy_soh demo_config demo_frame = Ok PNone).
Proof.
  assert (H1 : length [fin 0 1; fin 10 1; fin 20 1]
               ≠ length [fin 0 1; fin 1 1]
               ∨ [fin 0 1; fin 10 1; fin 20 1] = []
               ∨ [fin 0 1; fin 1 1] = []) by (left; simpl; lia).
  assert (H2 : demo_frame !! "time" = Some [fin 0 1; fin 1 1])
    by reflexivity.
  split; [exact H1|]. split; [exact H2|].
  exact (soh_mismatched_lengths_none demo_config demo_frame
           [fin 0 1; fin 10 1; fin 20 1] [fin 0 1; fin 1 1] H1 H2).
Defined.

(** ** Peak detection *)

Section SortOrder.

#[global] Instance sort_le_total : Total Num.sort_le.
Proof.
  intros [p| | |] [q| | |]; simpl; auto.
  destruct (Qclt_le_dec p q) as [Hlt|Hle].
  - left. apply bool_decide_eq_true_2. by apply Qclt_le_weak.
  - right. by apply bool_decide_eq_true_2.
Qed.

#[global] Instance sort_le_trans : Transitive Num.sort_le.
Proof.
  intros [p| | |] [q| | |] [r| | |]; simpl; try done.
  rewrite !bool_decide_eq_true. apply Qcle_trans.
Qed.

#[global] Instance key_le_total keys : Total (np.key_le keys).
Proof. intros p q. apply sort_le_total. Qed.

#[global] Instance key_le_trans keys : Transitive (np.key_le keys).
Proof. intros p q r. apply sort_le_trans. Qed.

Lemma sort_le_leb (x y : num) :
  x ≠ NaN -> y ≠ NaN -> Num.sort_le x y -> (x <=? y)%num = true.
Proof. by destruct x, y. Qed.

Lemma insert_position_Permutation (keys : list num) (p : nat)
    (sorted : list nat) :
  np.insert_position keys p sorted ≡ₚ p :: sorted.
Proof.
  induction sorted as [|q rest IH]; simpl; [done|].
  case_decide; [|done]. rewrite IH. apply Permutation_swap.
Qed.

Lemma insert_position_sorted (keys : list num) (p : nat)
    (sorted : list nat) :
  StronglySorted (np.key_le keys) sorted ->
  StronglySorted (np.key_le keys) (np.insert_position keys p sorted).
Proof.
  induction 1 as [|q rest Hs IH Hall]; simpl.
  - repeat constructor.
  - case_decide as Hqp.
    + constructor; [done|].
      rewrite insert_position_Permutation. by constructor.
    + assert (Hpq : np.key_le keys p q).
      { by destruct (key_le_total keys p q). }
      constructor; [by constructor|]. constructor; [done|].
      eapply Forall_impl; [exact Hall|].
      intros r Hqr. by etrans.
Qed.

Lemma argsort_insertions (keys : list num) (ps : list nat) :
  let r := foldl (fun sorted p => np.insert_position keys p sorted) [] ps in
  r ≡ₚ ps ∧ StronglySorted (np.key_le keys) r.
Proof.
  induction ps as [|p ps IH] using rev_ind; simpl; [by split; constructor|].
  rewrite foldl_app. simpl. destruct IH as [Hperm Hsort]. split.
  - rewrite insert_position_Permutation, Hperm.
    by rewrite Permutation_cons_append.
  - by apply insert_position_sorted.
Qed.

Lemma argsort_Permutation (keys : list num) :
  np.argsort keys ≡ₚ seq 0 (length keys).
Proof. apply argsort_insertions. Qed.

Lemma StronglySorted_argsort (keys : list num) :
  StronglySorted (np.key_le keys) (np.argsort keys).
Proof. apply argsort_insertions. Qed.

End SortOrder.

Lemma elem_of_where (mask : list bool) (i : nat) :
  i ∈ np.where_ mask <-> mask !! i = Some true.
Proof.
  unfold np.where_. rewrite list_elem_of_filter, elem_of_seq, nth_lookup.
  split.
  - intros [Hi Hlt]. destruct (mask !! i) as [[|]|]; done.
  - intros Hi. rewrite Hi. split; [done|].
    apply lookup_lt_Some in Hi. lia.
Qed.

Lemma NoDup_where (mask : list bool) : NoDup (np.where_ mask).
Proof. apply NoDup_filter, NoDup_seq. Qed.

Section Suppression.

Variable y : list num.
Variable min_dist : Z.

#[local] Instance kept_dec rem i : Decision (kept rem i).
Proof. unfold kept. apply _. Defined.

#[local] Instance within_dec i j : Decision (within min_dist i j).
Proof. unfold within. apply _. Defined.

Lemma kept_insert_all (ps : list nat) (r0 : list bool) (i : nat) :
  kept (foldl (fun rem p => <[p := false]> rem) r0 ps) i
  <-> (i ∈ ps ∧ (i < length r0)%nat) ∨ kept r0 i.
Proof.
  revert r0. induction ps as [|p ps IH]; intros r0; simpl.
  - rewrite elem_of_nil. tauto.
  - rewrite IH, length_insert, elem_of_cons. unfold kept.
    rewrite list_lookup_insert. case_decide as Hd.
    + destruct Hd as [-> Hlt]. tauto.
    + split; [tauto|]. intros [[[->|?] ?]|?]; tauto.
Qed.

Lemma kept_rem_init (n : nat) (peaks : list nat) (i : nat) :
  (∀ c, c ∈ peaks -> (c < n)%nat) ->
  kept (peakutils.rem_init n peaks) i <-> i ∈ peaks.
Proof.
  intros Hrange. unfold peakutils.rem_init.
  rewrite kept_insert_all, length_replicate. unfold kept.
  split.
  - intros [[? _]|Hk]; [done|].
    apply lookup_replicate in Hk. by destruct Hk.
  - intros Hi. left. auto.
Qed.

Lemma kept_nth (rem : list bool) (p : nat) :
  kept rem p <-> nth p rem true = false.
Proof.
  unfold kept. rewrite nth_lookup.
  destruct (rem !! p) as [[|]|]; simpl; split; congruence.
Qed.

Lemma suppress_skip (rem : list bool) (p : nat) :
  ¬ kept rem p -> peakutils.suppress min_dist rem p = rem.
Proof.
  intros Hk. unfold peakutils.suppress.
  destruct (nth p rem true) eqn:Hn; [done|].
  by apply kept_nth in Hn.
Qed.

Lemma window_bounds (p i : nat) :
  (Z.max 0 (Z.of_nat p - min_dist) <= Z.of_nat i
   < Z.of_nat p + min_dist + 1)%Z
  <-> within min_dist p i.
Proof. unfold within. lia. Qed.

Lemma within_sym (i j : nat) : within min_dist i j -> within min_dist j i.
Proof. unfold within. lia. Qed.

Lemma kept_suppress (rem : list bool) (p i : nat) :
  kept rem p ->
  kept (peakutils.suppress min_dist rem p) i
  <-> i = p ∨ (kept rem i ∧ ¬ within min_dist p i).
Proof.
  intros Hp. unfold peakutils.suppress.
  rewrite (proj1 (kept_nth rem p) Hp). cbn [negb]. unfold kept.
  rewrite list_lookup_insert. unfold peakutils.set_slice.
  rewrite length_imap, list_lookup_imap.
  pose proof (lookup_lt_Some _ _ _ Hp) as Hlt.
  case_decide as Hd.
  - destruct Hd as [-> _]. tauto.
  - assert (i ≠ p) by (intros ->; tauto).
    destruct (rem !! i) as [b|] eqn:Hi; simpl.
    + case_bool_decide as Hw; rewrite window_bounds in Hw.
      * split; [done|]. intros [?|[_ ?]]; done.
      * split; [intros [= ->]; tauto|]. intros [?|[[= ->] _]]; done.
    + split; [done|]. intros [?|[? _]]; done.
Qed.

Lemma suppress_step (peaks visited todo : list nat) (p : nat)
    (rem : list bool) :
  descending y (visited ++ p :: todo) ->
  (∀ c, c ∈ peaks -> c ∈ visited ++ p :: todo) ->
  suppress_inv y min_dist peaks visited rem ->
  suppress_inv y min_dist peaks (visited ++ [p])
               (peakutils.suppress min_dist rem p).
Proof.
  intros Hdesc Hall [Hsub Hapart Hkill].
  destruct (decide (kept rem p)) as [Hp|Hp].
  2:{ rewrite suppress_skip by done. split.
      - done.
      - intros i j [Hi|Hi]%elem_of_app Hki Hkj Hne.
        + by apply Hapart.
        + apply list_elem_of_singleton in Hi as ->. done.
      - intros c Hc Hnk. destruct (Hkill c Hc Hnk) as (k & ? & ? & ? & ?).
        exists k. rewrite elem_of_app. auto. }
  split.
  - intros i [->|[Hi _]]%kept_suppress; auto.
  - intros i j Hi Hki%kept_suppress Hkj%kept_suppress Hne; try done.
    apply elem_of_app in Hi as [Hi|Hi].
    + destruct Hki as [->|[Hki Hwi]], Hkj as [->|[Hkj Hwj]].
      * done.
      * by apply Hapart.
      * intros Hw. by apply Hwi, within_sym.
      * by apply Hapart.
    + apply list_elem_of_singleton in Hi as ->.
      destruct Hkj as [->|[_ Hwj]]; done.
  - intros c Hc Hnk.
    destruct (decide (kept rem c)) as [Hkc|Hkc].
    + (* removed in this turn *)
      assert (c ≠ p ∧ within min_dist p c) as [Hne Hw].
      { destruct (decide (c = p)) as [->|Hne].
        - exfalso. apply Hnk. apply kept_suppress; auto.
        - split; [done|]. destruct (decide (within min_dist p c)); [done|].
          exfalso. apply Hnk. apply kept_suppress; auto. }
      exists p. split; [set_solver|]. split; [apply kept_suppress; auto|].
      split; [done|].
      assert (Hnv : c ∉ visited).
      { intros Hv. apply (Hapart c p Hv Hkc Hp Hne). by apply within_sym. }
      apply (Hdesc visited p todo c eq_refl).
      specialize (Hall c Hc).
      apply elem_of_app in Hall as [?|Hall]; [done|].
      apply elem_of_cons in Hall as [?|?]; done.
    + destruct (Hkill c Hc Hkc) as (k & Hv & Hkk & Hw & Hle).
      exists k. split; [set_solver|]. split; [|done].
      apply kept_suppress; [done|].
      destruct (decide (k = p)) as [->|Hne]; [by left|right].
      split; [done|]. intros Hpk. apply (Hapart k p Hv Hkk Hp Hne).
      by apply within_sym.
Qed.

Lemma suppress_loop (peaks todo visited : list nat) (rem : list bool) :
  descending y (visited ++ todo) ->
  (∀ c, c ∈ peaks -> c ∈ visited ++ todo) ->
  suppress_inv y min_dist peaks visited rem ->
  suppress_inv y min_dist peaks (visited ++ todo)
               (foldl (peakutils.suppress min_dist) rem todo).
Proof.
  revert visited rem. induction todo as [|p todo IH];
    intros visited rem Hdesc Hall Hinv.
  - by rewrite app_nil_r.
  - cbn [foldl]. rewrite cons_middle, app_assoc.
    apply IH; rewrite <- ?app_assoc, <- ?cons_middle; try done.
    by apply (suppress_step peaks visited todo).
Qed.

End Suppression.

Section Highest.

Variable y : list num.
Variable peaks : list nat.

Lemma fmap_nth_seq {A} (l : list A) (d : A) :
  (fun q => nth q l d) <$> seq 0 (length l) = l.
Proof.
  apply list_eq. intros i. rewrite list_lookup_fmap.
  destruct (l !! i) as [x|] eqn:Hi.
  - rewrite (proj2 (lookup_seq 0 (length l) i i)).
    + simpl. f_equal. by apply nth_lookup_Some.
    + split; [done|]. by apply lookup_lt_Some in Hi.
  - rewrite lookup_seq_ge; [done|]. by apply lookup_ge_None in Hi.
Qed.

Lemma highest_perm : peakutils.highest y peaks ≡ₚ peaks.
Proof.
  unfold peakutils.highest.
  rewrite reverse_Permutation, argsort_Permutation, length_fmap.
  by rewrite fmap_nth_seq.
Qed.

Lemma StronglySorted_fmap_elem {A B} (f : A -> B)
    (R1 : relation A) (R2 : relation B) (l : list A) :
  (∀ a b, a ∈ l -> b ∈ l -> R1 a b -> R2 (f a) (f b)) ->
  StronglySorted R1 l -> StronglySorted R2 (f <$> l).
Proof.
  intros Hf Hs. induction Hs as [|a l Hs IH Hall]; csimpl; constructor.
  - apply IH. intros b c Hb Hc. apply Hf; by right.
  - rewrite Forall_fmap. rewrite Forall_forall in Hall |- *.
    intros b Hb. apply Hf; [left|by right|by apply Hall].
Qed.

Lemma key_of_position (q : nat) :
  (q < length peaks)%nat ->
  ((fun i => y @ i) <$> peaks) @ q = y @ (nth q peaks 0%nat).
Proof.
  intros Hq. unfold at_ at 1. rewrite nth_lookup, list_lookup_fmap.
  destruct (lookup_lt_is_Some_2 peaks q Hq) as [c Hc].
  rewrite Hc. simpl. by rewrite (nth_lookup_Some _ _ _ _ Hc).
Qed.

Lemma highest_descending : descending y (peakutils.highest y peaks).
Proof.
  intros l1 p l2 c Horder Hc.
  set (keys := (fun i => y @ i) <$> peaks) in *.
  set (asc := (fun q => nth q peaks 0%nat) <$> np.argsort keys) in *.
  assert (Hasc : StronglySorted (fun a b => Num.sort_le (y @ a) (y @ b)) asc).
  { apply (StronglySorted_fmap_elem _ (np.key_le keys)).
    - intros a b Ha Hb Hab.
      rewrite argsort_Permutation, elem_of_seq in Ha, Hb.
      unfold keys in Ha, Hb. rewrite length_fmap in Ha, Hb.
      unfold np.key_le, keys in Hab.
      by rewrite !key_of_position in Hab by lia.
    - apply StronglySorted_argsort. }
  assert (Hrev : asc = reverse l2 ++ p :: reverse l1).
  { unfold peakutils.highest in Horder. fold keys in Horder.
    fold asc in Horder.
    rewrite <- (reverse_involutive asc), Horder.
    rewrite reverse_app, reverse_cons, <- app_assoc. done. }
  rewrite Hrev in Hasc. apply StronglySorted_app in Hasc as (Hle & _ & _).
  apply Hle; [by apply elem_of_reverse|by left].
Qed.

End Highest.

(** What the suppression keeps, for candidates that are positions of
    the curve: a subset of the candidates, no two of them within
    [min_dist] of each other, and every discarded candidate has a kept
    one within [min_dist] that sorts at least as high. *)
Lemma min_dist_filter_spec (y : list num) (min_dist : Z) (peaks : list nat) :
  (∀ c, c ∈ peaks -> (c < length y)%nat) ->
  let r := peakutils.min_dist_filter y min_dist peaks in
  (∀ i, i ∈ r -> i ∈ peaks)
  ∧ (∀ i j, i ∈ r -> j ∈ r -> i ≠ j -> ¬ within min_dist i j)
  ∧ (∀ c, c ∈ peaks -> c ∉ r ->
          ∃ k, k ∈ r ∧ within min_dist k c
               ∧ Num.sort_le (y @ c) (y @ k)).
Proof.
  intros Hrange r.
  set (rem := foldl (peakutils.suppress min_dist)
                    (peakutils.rem_init (length y) peaks)
                    (peakutils.highest y peaks)).
  assert (Hr : ∀ i, i ∈ r <-> kept rem i).
  { intros i. unfold r, peakutils.min_dist_filter. fold rem.
    rewrite elem_of_where, list_lookup_fmap. unfold kept.
    destruct (rem !! i) as [[|]|]; simpl; split; congruence. }
  assert (Hinv : suppress_inv y min_dist peaks
                   ([] ++ peakutils.highest y peaks) rem).
  { apply suppress_loop.
    - simpl. apply highest_descending.
    - intros c Hc. simpl. by rewrite highest_perm.
    - split.
      + intros i Hi. by apply kept_rem_init in Hi.
      + intros i j Hi. by apply elem_of_nil in Hi.
      + intros c Hc Hnk. exfalso. apply Hnk. by apply kept_rem_init. }
  simpl in Hinv. destruct Hinv as [Hsub Hapart Hkill].
  split; [|split].
  - intros i Hi%Hr. auto.
  - intros i j Hi%Hr Hj%Hr Hne. apply Hapart; try done.
    rewrite highest_perm. auto.
  - intros c Hc Hnr. destruct (Hkill c Hc) as (k & _ & Hk & Hw & Hle).
    { by rewrite <- Hr. }
    exists k. by rewrite Hr.
Qed.

(** ** The three detectors *)

Lemma detect_indices (m : mode) (dv : list num) :
  detect m dv
  = peakutils.indices (mode_curve m dv) (mode_threshold m)
                      (dv_window_size config).
Proof. by destruct m. Qed.

Lemma indices_unfold (y : list num) (thres : num) (min_dist : Z) :
  y ≠ [] ->
  peakutils.indices y thres min_dist
  = Ok (let peaks := found_before_suppression y thres in
        if bool_decide (1 < length peaks)%nat && bool_decide (1 < min_dist)%Z
        then peakutils.min_dist_filter y min_dist peaks
        else peaks).
Proof.
  intros Hy. destruct y as [|x l]; [done|].
  unfold peakutils.indices, found_before_suppression.
  cbn [np.max np.min mbind result_bind].
  case_bool_decide; [done|]. cbv zeta. by case_match.
Qed.

Lemma indices_empty (thres : num) (min_dist : Z) :
  peakutils.indices [] thres min_dist = Raise ValueError.
Proof. done. Qed.

Lemma found_in_range (y : list num) (thres : num) (c : nat) :
  c ∈ found_before_suppression y thres ->
  (c < length y)%nat ∧ y @ c ≠ NaN.
Proof.
  unfold found_before_suppression.
  destruct (np.max y) as [hi|]; [|by intros ?%elem_of_nil].
  destruct (np.min y) as [lo|]; [|by intros ?%elem_of_nil].
  cbv zeta. case_bool_decide; [by intros ?%elem_of_nil|].
  unfold peakutils.candidates. rewrite elem_of_where.
  intros (b1 & b2 & Hb & _ & Hab)%lookup_zip_with_Some.
  rewrite list_lookup_fmap in Hab.
  destruct (y !! c) as [v|] eqn:Hv; [|done]. simpl in Hab.
  split; [by apply lookup_lt_Some in Hv|].
  unfold at_. rewrite (nth_lookup_Some _ _ _ _ Hv).
  destruct b1; [|done]. simpl in Hb. simplify_eq.
  intros ->. by destruct (thres * (hi - lo) + lo)%num.
Qed.

Lemma NoDup_found (y : list num) (thres : num) :
  NoDup (found_before_suppression y thres).
Proof.
  unfold found_before_suppression.
  destruct (np.max y); [|apply NoDup_nil_2].
  destruct (np.min y); [|apply NoDup_nil_2].
  cbv zeta. case_bool_decide; [apply NoDup_nil_2|].
  unfold peakutils.candidates. apply NoDup_where.
Qed.

(** C6 as the spec has it fails.  On this curve the PE detector finds
    peaks at 1, 5 and 9 (heights 3, 2 and 1).  Peaks 5 and 9 lie within
    the minimum distance of each other, 5 is the higher one, and the
    result keeps 9 and discards 5: peak 5 was suppressed by the still
    higher peak 1, which is too far from 9 to suppress it. *)
Lemma higher_peak_wins_counterexample :
  let dv := [fin 0 1; fin 3 1; fin 1 1; fin 1 2; fin 1 5; fin 2 1;
             fin 1 1; fin 1 2; fin 1 5; fin 1 1; fin 0 1] in
  found_before_suppression dv (lam_pe_threshold config) = [1; 5; 9]%nat
  ∧ (Z.abs (5 - 9) <= dv_window_size config)%Z
  ∧ (dv @ 9 <? dv @ 5)%num = true
  ∧ DV._detect_lam_pe dv = Ok [1; 9]%nat.
Proof.
  intros dv. split; [by_compute|]. split; [by vm_compute|].
  split; by_compute.
Qed.

(** C6, amended.  For every non-empty curve and every mode, the detected
    indices are candidate peaks, no two of them lie within the minimum
    distance of each other, and a candidate is discarded only when a
    retained peak at least as high lies within the minimum distance of
    it.  (Of two candidates within the window the lower one can thus be
    the one retained, when the higher one has itself been discarded.) *)
Theorem min_distance_suppression (m : mode) (dv : list num) :
  dv ≠ [] ->
  ∃ r, detect m dv = Ok r ∧
    let y := mode_curve m dv in
    let cands := found_before_suppression y (mode_threshold m) in
    (∀ i, i ∈ r -> i ∈ cands)
    ∧ (∀ i j, i ∈ r -> j ∈ r -> i ≠ j ->
              (dv_window_size config < Z.abs (Z.of_nat i - Z.of_nat j))%Z)
    ∧ (∀ c, c ∈ cands -> c ∉ r ->
            ∃ k, k ∈ r
                 ∧ (Z.abs (Z.of_nat k - Z.of_nat c)
                    <= dv_window_size config)%Z
                 ∧ (y @ c <=? y @ k)%num = true).
Proof.
  intros Hdv. rewrite detect_indices.
  assert (Hy : mode_curve m dv ≠ []).
  { destruct m, dv; done. }
  rewrite (indices_unfold _ _ _ Hy). eexists. split; [reflexivity|].
  intros y cands. cbv zeta. fold y. fold cands.
  change (bool_decide (1 < dv_window_size config)%Z) with true.
  rewrite andb_true_r. case_bool_decide as Hlen.
  - destruct (min_dist_filter_spec y (dv_window_size config) cands)
      as (Hsub & Hapart & Hkill).
    { intros c Hc. exact (proj1 (found_in_range y (mode_threshold m) c Hc)). }
    split; [done|]. split.
    + intros i j Hi Hj Hne. specialize (Hapart i j Hi Hj Hne).
      unfold within in Hapart. lia.
    + intros c Hc Hnr. destruct (Hkill c Hc Hnr) as (k & Hk & Hw & Hle).
      exists k. split; [done|]. split; [exact Hw|].
      apply sort_le_leb; [| |done].
      * by apply (found_in_range y (mode_threshold m)).
      * by apply (found_in_range y (mode_threshold m)), Hsub.
  - split; [done|]. split; [|done].
    intros i j Hi Hj Hne. exfalso.
    pose proof (NoDup_found y (mode_threshold m)) as Hnd. fold cands in Hnd.
    destruct cands as [|a [|b l]]; simpl in Hlen; [| |lia].
    + by apply elem_of_nil in Hi.
    + apply list_elem_of_singleton in Hi, Hj. congruence.
Qed.

Lemma min_distance_suppression_witness :
  let dv := [fin 0 1; fin 3 1; fin 1 1; fin 1 2; fin 1 5; fin 2 1;
             fin 1 1; fin 1 2; fin 1 5; fin 1 1; fin 0 1] in
  dv ≠ []
  ∧ ∃ r, detect LamPE dv = Ok r ∧
      let y := mode_curve LamPE dv in
      let cands := found_before_suppression y (mode_threshold LamPE) in
      (∀ i, i ∈ r -> i ∈ cands)
      ∧ (∀ i j, i ∈ r -> j ∈ r -> i ≠ j ->
                (dv_window_size config < Z.abs (Z.of_nat i - Z.of_nat j))%Z)
      ∧ (∀ c, c ∈ cands -> c ∉ r ->
              ∃ k, k ∈ r
                   ∧ (Z.abs (Z.of_nat k - Z.of_nat c)
                      <= dv_window_size config)%Z
                   ∧ (y @ c <=? y @ k)%num = true).
Proof.
  intros dv. split; [discriminate|].
  apply (min_distance_suppression LamPE dv). discriminate.
Defined.

(** *** The NE threshold *)

Lemma fold_max2_fin (l : list num) (a : Qc) :
  Forall (fun v => Num.is_finite v = true) l ->
  ∃ M, foldl Num.max2 (Fin a) l = Fin M ∧ a <= M
       ∧ ∀ q, Fin q ∈ l -> q <= M.
Proof.
  revert a. induction l as [|v l IH]; intros a Hfin.
  - exists a. split; [done|]. split; [apply Qcle_refl|].
    by intros q ?%elem_of_nil.
  - apply Forall_cons in Hfin as [Hv Hfin].
    destruct v as [b| | |]; try done. cbn [foldl Num.max2 Num.is_nan Num.ltb].
    case_bool_decide as Hab.
    + destruct (IH b Hfin) as (M & -> & HbM & Hall). exists M.
      split; [done|]. split.
      * apply Qcle_trans with b; [by apply Qclt_le_weak|done].
      * intros q [[= ->]|Hq]%elem_of_cons; auto.
    + destruct (IH a Hfin) as (M & -> & HaM & Hall). exists M.
      split; [done|]. split; [done|].
      intros q [[= ->]|Hq]%elem_of_cons; auto.
      apply Qcle_trans with a; [by apply Qcnot_lt_le|done].
Qed.

Lemma fold_min2_fin (l : list num) (a : Qc) :
  Forall (fun v => Num.is_finite v = true) l ->
  ∃ m, foldl Num.min2 (Fin a) l = Fin m ∧ m <= a
       ∧ ∀ q, Fin q ∈ l -> m <= q.
Proof.
  revert a. induction l as [|v l IH]; intros a Hfin.
  - exists a. split; [done|]. split; [apply Qcle_refl|].
    by intros q ?%elem_of_nil.
  - apply Forall_cons in Hfin as [Hv Hfin].
    destruct v as [b| | |]; try done. cbn [foldl Num.min2 Num.is_nan Num.ltb].
    case_bool_decide as Hab.
    + destruct (IH b Hfin) as (m & -> & Hmb & Hall). exists m.
      split; [done|]. split.
      * apply Qcle_trans with b; [done|by apply Qclt_le_weak].
      * intros q [[= ->]|Hq]%elem_of_cons; auto.
    + destruct (IH a Hfin) as (m & -> & Hma & Hall). exists m.
      split; [done|]. split; [done|].
      intros q [[= ->]|Hq]%elem_of_cons; auto.
      apply Qcle_trans with a; [done|by apply Qcnot_lt_le].
Qed.

Lemma below_range (M m q : Qc) :
  m < M -> m <= q -> qc (-5) 100 * (M - m) + m < q.
Proof.
  intros H1 H2. apply Qclt_le_trans with m; [|done].
  unfold Qclt, Qcle in *.
  unfold qc, Qcplus, Qcmult, Qcminus, Qcopp, Qcplus.
  simpl. rewrite !Qred_correct. lra.
Qed.

(** For a curve of finite samples that is not flat, the threshold the
    peak finder derives from [lam_ne_threshold] lies below every sample
    of the negated curve. *)
Lemma lam_ne_threshold_below_curve (dv : list num) (hi lo v : num) :
  Forall (fun x => Num.is_finite x = true) dv ->
  np.max (Num.neg <$> dv) = Ok hi ->
  np.min (Num.neg <$> dv) = Ok lo ->
  hi ≠ lo ->
  v ∈ Num.neg <$> dv ->
  (v >? lam_ne_threshold config * (hi - lo) + lo)%num = true.
Proof.
  intros Hfin Hhi Hlo Hne Hv.
  assert (Hfin' : Forall (fun x => Num.is_finite x = true) (Num.neg <$> dv)).
  { rewrite Forall_fmap. eapply Forall_impl; [exact Hfin|].
    by intros [| | |]. }
  destruct (Num.neg <$> dv) as [|x l]; [done|].
  apply Forall_cons in Hfin' as [Hx Hl].
  destruct x as [a| | |]; try done. simpl in Hhi, Hlo.
  destruct (fold_max2_fin l a Hl) as (M & HM & HaM & HallM).
  destruct (fold_min2_fin l a Hl) as (m & Hm & Hma & Hallm).
  rewrite HM in Hhi. rewrite Hm in Hlo. simplify_eq.
  assert (Hlt : m < M).
  { destruct (Qclt_le_dec m M) as [?|Hle]; [done|]. exfalso. apply Hne.
    f_equal. apply Qcle_antisym; [done|].
    by apply Qcle_trans with a. }
  assert (∃ q, v = Fin q ∧ m <= q) as (q & -> & Hmq).
  { apply elem_of_cons in Hv as [->|Hv]; [by exists a|].
    pose proof (proj1 (Forall_forall _ l) Hl v Hv) as Hfv.
    destruct v as [q| | |]; try done. exists q. auto. }
  unfold Num.gtb. cbn. apply bool_decide_eq_true_2.
  by apply below_range.
Qed.

(** C5.  The NE detector hands the negated curve to the peak finder but
    passes [lam_ne_threshold] as it is, [-0.05], where the magnitude
    [0.05] is meant.  On a curve with a deep trough at index 1 and a
    trough of 3 % of the range at index 8 it reports both, while the
    detector with the magnitude as threshold reports the deep one only.
    With the negative threshold the finder's level does not exceed the
    minimum of the negated curve, for every curve of finite samples
    that is not flat: no sample above the minimum is ever filtered. *)
Theorem lam_ne_reports_shallow_trough :
  DV._detect_lam_ne two_troughs = Ok [1; 8]%nat
  ∧ detect_lam_ne_by_magnitude two_troughs = Ok [1%nat]
  ∧ magnitude (lam_ne_threshold config) = fin 5 100
  ∧ ∀ (curve : list num) (hi lo v : num),
      Forall (fun x => Num.is_finite x = true) curve ->
      np.max (Num.neg <$> curve) = Ok hi ->
      np.min (Num.neg <$> curve) = Ok lo ->
      hi ≠ lo ->
      v ∈ Num.neg <$> curve ->
      (v >? lo)%num = true ->
      (v >? lam_ne_threshold config * (hi - lo) + lo)%num = true.
Proof.
  split; [by_compute|]. split; [by_compute|]. split; [by_compute|].
  intros curve hi lo v Hfin Hhi Hlo Hne Hv _.
  by apply (lam_ne_threshold_below_curve curve hi lo v).
Qed.

(** * Further properties of the analyzers and their helpers *)

(** ** Running the analysis *)

Lemma gradient_ok (f : list num) :
  (2 <= length f)%nat ->
  ∃ g, np.gradient f = Ok g ∧ length g = length f.
Proof.
  intros Hn. unfold np.gradient.
  rewrite bool_decide_eq_false_2 by lia.
  eexists. split; [done|]. by rewrite length_fmap, length_seq.
Qed.

Lemma gradient_short (f : list num) :
  (length f < 2)%nat -> np.gradient f = Raise ValueError.
Proof. intros Hn. unfold np.gradient. by rewrite bool_decide_eq_true_2. Qed.

Lemma smooth_five_length (data : list num) :
  data ≠ [] ->
  ∃ out, DV._smooth data 5 = Ok out
    ∧ (Z.of_nat (length out) = Z.abs (Z.of_nat (length data) - 5) + 1)%Z.
Proof.
  intros Hd. rewrite smooth_unfold by lia. unfold np.convolve_valid.
  assert (length data ≠ 0%nat) by by destruct data.
  rewrite length_replicate. change (Z.to_nat 5) with 5%nat.
  case_bool_decide as Hsw.
  - rewrite length_replicate. rewrite !bool_decide_eq_false_2 by lia.
    eexists. split; [done|]. rewrite length_fmap, length_seq. lia.
  - rewrite length_replicate. rewrite !bool_decide_eq_false_2 by lia.
    eexists. split; [done|]. rewrite length_fmap, length_seq. lia.
Qed.

Lemma identify_ok (dv : list num) :
  dv ≠ [] ->
  ∃ pe ne li,
    DV._detect_lam_pe dv = Ok pe ∧ DV._detect_lam_ne dv = Ok ne
    ∧ DV._detect_lli dv = Ok li
    ∧ DV._identify_degradation_modes dv
      = Ok {| lam_pe := pe; lam_ne := ne; lli := li |}.
Proof.
  intros Hdv. unfold DV._identify_degradation_modes, DV._detect_lam_pe,
    DV._detect_lam_ne, DV._detect_lli.
  assert (Hneg : Num.neg <$> dv ≠ []) by by destruct dv.
  rewrite !(indices_unfold dv) by done.
  rewrite (indices_unfold (Num.neg <$> dv)) by done.
  eexists _, _, _. repeat split; reflexivity.
Qed.

(** The outcome of [calculate_dv_curve] on an analyzer the constructor
    has accepted, by the number [n] of samples. *)
Lemma calculate_dv_curve_cases (v c s : list num) (self : DVAnalyzer) :
  DV.__init__ v c s = Ok self ->
  self = {| voltage := v; current := c; soc := s;
            dv_curve_ := None; degradation_modes_ := None |}
  ∧ length s = length v
  ∧ ((length v < 2)%nat -> DV.calculate_dv_curve self = Raise ValueError)
  ∧ ((2 <= length v)%nat ->
     ∃ dv pe ne li,
       DV._calculate_dv self = Ok dv
       ∧ (Z.of_nat (length dv) = Z.abs (Z.of_nat (length v) - 5) + 1)%Z
       ∧ DV._detect_lam_pe dv = Ok pe ∧ DV._detect_lam_ne dv = Ok ne
       ∧ DV._detect_lli dv = Ok li
       ∧ DV.calculate_dv_curve self
         = Ok ({| voltage := v; current := c; soc := s;
                  dv_curve_ := Some dv;
                  degradation_modes_ :=
                    Some {| lam_pe := pe; lam_ne := ne; lli := li |} |},
               dv)).
Proof.
  intros Hinit.
  destruct (init_cases v c s) as [[_ Hr]|[Hvalid Hr]];
    rewrite Hr in Hinit; [done|]. injection Hinit as <-.
  split; [done|].
  assert (Hlen : length s = length v).
  { destruct (decide (length v = length s)) as [?|Hne]; [done|].
    exfalso. apply Hvalid. left. by right. }
  split; [done|]. split.
  - intros Hn. unfold DV.calculate_dv_curve, DV._calculate_dv, DV.raw_dv.
    cbn [voltage soc]. rewrite (gradient_short v) by done. reflexivity.
  - intros Hn.
    destruct (gradient_ok v Hn) as (gv & Hgv & Hlv).
    destruct (gradient_ok s ltac:(lia)) as (gs & Hgs & Hls).
    assert (Hraw : DV.raw_dv {| voltage := v; current := c; soc := s;
                     dv_curve_ := None; degradation_modes_ := None |}
                   = Ok (zip_with Num.div gv gs)).
    { unfold DV.raw_dv. cbn [voltage soc]. rewrite Hgv, Hgs.
      cbn [mbind result_bind]. unfold np.divide.
      by rewrite bool_decide_eq_true_2 by lia. }
    assert (Hne : zip_with Num.div gv gs ≠ []).
    { intros Hnil. apply (f_equal length) in Hnil.
      rewrite length_zip_with in Hnil. simpl in Hnil. lia. }
    destruct (smooth_five_length _ Hne) as (dv & Hdv & Hldv).
    rewrite length_zip_with in Hldv.
    assert (Hdvne : dv ≠ []).
    { intros ->. simpl in Hldv. lia. }
    destruct (identify_ok dv Hdvne) as (pe & ne & li & Hpe & Hn' & Hli & Hid).
    exists dv, pe, ne, li.
    assert (Hcalc : DV._calculate_dv {| voltage := v; current := c; soc := s;
                      dv_curve_ := None; degradation_modes_ := None |}
                    = Ok dv).
    { unfold DV._calculate_dv. rewrite Hraw. exact Hdv. }
    split; [done|]. split; [lia|]. split; [done|]. split; [done|].
    split; [done|].
    unfold DV.calculate_dv_curve. rewrite Hcalc. cbn [mbind result_bind].
    rewrite Hid. reflexivity.
Qed.


Lemma five_init :
  DV.__init__ five_volts five_amps five_socs = Ok five_analyzer.
Proof. by_compute. Qed.


(** X2.  On an analyzer fresh from the constructor the three getters
    raise [AttributeError] ([degradation_modes_] is still [None]) and
    [identify_degradation_modes] returns [None]; on the analyzer that
    [calculate_dv_curve] hands back they return what the detectors find
    on the stored curve. *)
Theorem getters_before_and_after_analysis
    (v c s : list num) (self : DVAnalyzer) :
  DV.__init__ v c s = Ok self ->
  DV.identify_degradation_modes self = None
  ∧ DV.detect_lam_pe self = Raise AttributeError
  ∧ DV.detect_lam_ne self = Raise AttributeError
  ∧ DV.detect_lli self = Raise AttributeError
  ∧ ∀ self' dv,
      DV.calculate_dv_curve self = Ok (self', dv) ->
      DV.detect_lam_pe self' = DV._detect_lam_pe dv
      ∧ DV.detect_lam_ne self' = DV._detect_lam_ne dv
      ∧ DV.detect_lli self' = DV._detect_lli dv
      ∧ ∃ pe ne li,
          DV.identify_degradation_modes self'
          = Some {| lam_pe := pe; lam_ne := ne; lli := li |}
          ∧ DV._detect_lam_pe dv = Ok pe ∧ DV._detect_lam_ne dv = Ok ne
          ∧ DV._detect_lli dv = Ok li.
Proof.
  intros Hinit.
  destruct (calculate_dv_curve_cases v c s self Hinit)
    as (-> & _ & Hshort & Hlong).
  repeat (split; [done|]).
  intros self' dv Hrun.
  destruct (decide (length v < 2)%nat) as [Hn|Hn].
  { rewrite (Hshort Hn) in Hrun. done. }
  destruct (Hlong ltac:(lia))
    as (dv' & pe & ne & li & _ & _ & Hpe & Hne & Hli & Hc).
  rewrite Hc in Hrun. injection Hrun as <- <-.
  unfold DV.detect_lam_pe, DV.detect_lam_ne, DV.detect_lli,
    DV.identify_degradation_modes. cbn.
  rewrite Hpe, Hne, Hli. repeat (split; [done|]).
  by exists pe, ne, li.
Qed.

Lemma getters_before_and_after_analysis_witness :
  DV.__init__ five_volts five_amps five_socs = Ok five_analyzer
  ∧ DV.identify_degradation_modes five_analyzer = None
  ∧ DV.detect_lam_pe five_analyzer = Raise AttributeError
  ∧ DV.detect_lam_ne five_analyzer = Raise AttributeError
  ∧ DV.detect_lli five_analyzer = Raise AttributeError
  ∧ ∀ self' dv,
      DV.calculate_dv_curve five_analyzer = Ok (self', dv) ->
      DV.detect_lam_pe self' = DV._detect_lam_pe dv
      ∧ DV.detect_lam_ne self' = DV._detect_lam_ne dv
      ∧ DV.detect_lli self' = DV._detect_lli dv
      ∧ ∃ pe ne li,
          DV.identify_degradation_modes self'
          = Some {| lam_pe := pe; lam_ne := ne; lli := li |}
          ∧ DV._detect_lam_pe dv = Ok pe ∧ DV._detect_lam_ne dv = Ok ne
          ∧ DV._detect_lli dv = Ok li.
Proof.
  split; [exact five_init|].
  exact (getters_before_and_after_analysis
           five_volts five_amps five_socs five_analyzer five_init).
Defined.

(** ** Curves without peaks *)

Lemma filter_all {A} (P : A -> Prop) `{∀ x, Decision (P x)} (l : list A) :
  Forall P l -> filter P l = l.
Proof.
  induction 1 as [|x l Hx _ IH]; [done|].
  rewrite filter_cons_True by done. by rewrite IH.
Qed.

Lemma filter_none {A} (P : A -> Prop) `{∀ x, Decision (P x)} (l : list A) :
  Forall (fun x => ¬ P x) l -> filter P l = [].
Proof.
  induction 1 as [|x l Hx _ IH]; [done|].
  rewrite filter_cons_False by done. exact IH.
Qed.

Lemma where_all_true (k : nat) : np.where_ (replicate k true) = seq 0 k.
Proof.
  unfold np.where_. rewrite length_replicate. apply filter_all.
  apply Forall_seq. intros j Hj. rewrite nth_lookup.
  by rewrite (proj2 (lookup_replicate k true true j)) by (split; [done|lia]).
Qed.

Lemma where_all_false (mask : list bool) :
  Forall (fun b => b = false) mask -> np.where_ mask = [].
Proof.
  intros Hall. unfold np.where_. apply filter_none.
  apply Forall_seq. intros j Hj. rewrite nth_lookup.
  destruct (mask !! j) as [b|] eqn:Hb; [|done]. simpl.
  rewrite (proj1 (Forall_lookup _ mask) Hall j b Hb). done.
Qed.

Lemma diff_replicate (k : nat) (x : num) :
  np.diff (replicate (S k) x) = replicate k (x - x)%num.
Proof.
  unfold np.diff. rewrite drop_replicate.
  replace (S k - 1)%nat with k by lia.
  induction k as [|k IH]; [done|].
  cbn [replicate zip_with] in *. f_equal. exact IH.
Qed.

Lemma fin_sub_self_is_zero (q : Qc) :
  ((Fin q - Fin q)%num =? of_Z 0)%num = true.
Proof.
  unfold Num.sub. cbn. apply bool_decide_eq_true_2.
  change (Q2Qc (inject_Z 0)) with 0. ring.
Qed.

(** A curve of one repeated finite value is flat: the peak finder
    returns no index, whatever the threshold and the distance. *)
Lemma indices_flat (k : nat) (q : Qc) (thres : num) (min_dist : Z) :
  peakutils.indices (replicate (S k) (Fin q)) thres min_dist = Ok [].
Proof.
  unfold peakutils.indices. cbn [replicate np.max np.min mbind result_bind].
  replace (Fin q :: replicate k (Fin q)) with (replicate (S k) (Fin q))
    by done.
  rewrite diff_replicate, fmap_replicate, fin_sub_self_is_zero.
  rewrite where_all_true, length_seq, length_replicate.
  by rewrite bool_decide_eq_true_2 by lia.
Qed.

Lemma indices_single (x thres : num) (min_dist : Z) :
  peakutils.indices [x] thres min_dist = Ok [].
Proof. done. Qed.

(** X3.  Every detector raises [ValueError] on the empty curve, and
    reports nothing on a curve of a single sample or of one repeated
    finite value. *)
Theorem detectors_on_degenerate_curves (m : mode) :
  detect m [] = Raise ValueError
  ∧ (∀ x, detect m [x] = Ok [])
  ∧ (∀ k q, detect m (replicate (S k) (Fin q)) = Ok []).
Proof.
  rewrite !detect_indices. split; [by destruct m|].
  split.
  - intros x. rewrite detect_indices. by destruct m.
  - intros k q. rewrite detect_indices.
    destruct m; cbn [mode_curve]; rewrite ?fmap_replicate;
      apply indices_flat.
Qed.

(** ** Where peaks can be reported *)

Lemma StronglySorted_seq (a n : nat) : StronglySorted lt (seq a n).
Proof.
  revert a. induction n as [|n IH]; intros a; simpl; constructor.
  - apply IH.
  - apply Forall_seq. intros j Hj. lia.
Qed.

Lemma StronglySorted_filter {A} (R : relation A) (P : A -> Prop)
    `{∀ x, Decision (P x)} (l : list A) :
  StronglySorted R l -> StronglySorted R (filter P l).
Proof.
  induction 1 as [|x l Hs IH Hall]; [constructor|].
  destruct (decide (P x)).
  - rewrite filter_cons_True by done. constructor; [done|].
    rewrite Forall_forall in Hall |- *.
    intros y [_ Hy]%list_elem_of_filter. auto.
  - by rewrite filter_cons_False by done.
Qed.

Lemma where_sorted (mask : list bool) : StronglySorted lt (np.where_ mask).
Proof. apply StronglySorted_filter, StronglySorted_seq. Qed.

Lemma candidates_interior (y dy : list num) (thres : num) (c : nat) :
  c ∈ peakutils.candidates y dy thres -> (0 < c < length dy)%nat.
Proof.
  unfold peakutils.candidates. rewrite elem_of_where.
  intros (b12 & b3 & Hb & H12 & _)%lookup_zip_with_Some.
  apply lookup_zip_with_Some in H12 as (b1 & b2 & -> & Hf & Hr).
  destruct b1, b2; try done. clear Hb.
  rewrite list_lookup_fmap in Hf, Hr. split.
  - destruct c as [|c]; [|lia]. by simpl in Hr.
  - destruct (decide (c < length dy)%nat) as [?|Hge]; [done|exfalso].
    destruct (decide (c = length dy)) as [->|Hne].
    + rewrite lookup_app_r, Nat.sub_diag in Hf by lia. by simpl in Hf.
    + rewrite lookup_ge_None_2 in Hf; [done|].
      rewrite length_app. simpl. lia.
Qed.

Lemma found_interior (y : list num) (thres : num) (c : nat) :
  c ∈ found_before_suppression y thres -> (0 < c ∧ c + 1 < length y)%nat.
Proof.
  unfold found_before_suppression.
  destruct (np.max y) as [hi|]; [|by intros ?%elem_of_nil].
  destruct (np.min y) as [lo|]; [|by intros ?%elem_of_nil].
  cbv zeta. case_bool_decide; [by intros ?%elem_of_nil|].
  intros Hc%candidates_interior.
  assert (Hlen : length (if bool_decide
                   (length (np.where_ ((fun d => (d =? of_Z 0)%num)
                                       <$> np.diff y)) = 0)%nat
                 then np.diff y else peakutils.fill_plateaus (np.diff y))
                 = (length y - 1)%nat).
  { case_bool_decide; [apply length_diff|].
    unfold peakutils.fill_plateaus. rewrite length_imap. apply length_diff. }
  rewrite Hlen in Hc. lia.
Qed.

Lemma found_sorted (y : list num) (thres : num) :
  StronglySorted lt (found_before_suppression y thres).
Proof.
  unfold found_before_suppression.
  destruct (np.max y); [|constructor].
  destruct (np.min y); [|constructor].
  cbv zeta. case_bool_decide; [constructor|].
  unfold peakutils.candidates. apply where_sorted.
Qed.

(** X5.  For every non-empty curve and every mode the detected indices
    come in strictly increasing order (so without repeats), and all of
    them are interior positions of the curve: the first and the last
    sample are never reported. *)
Theorem detected_indices_are_ordered_and_interior
    (m : mode) (dv : list num) :
  dv ≠ [] ->
  ∃ r, detect m dv = Ok r
    ∧ StronglySorted lt r
    ∧ ∀ i, i ∈ r -> (0 < i ∧ i + 1 < length dv)%nat.
Proof.
  intros Hdv. rewrite detect_indices.
  assert (Hy : mode_curve m dv ≠ []) by (destruct m, dv; done).
  assert (Hlen : length (mode_curve m dv) = length dv).
  { destruct m; cbn [mode_curve]; by rewrite ?length_fmap. }
  rewrite (indices_unfold _ _ _ Hy). eexists. split; [reflexivity|].
  cbv zeta. rewrite <- Hlen. case_match.
  - split; [apply where_sorted|]. intros i Hi.
    apply (found_interior (mode_curve m dv) (mode_threshold m)).
    eapply (min_dist_filter_spec (mode_curve m dv)); [|exact Hi].
    intros c Hc. apply found_interior in Hc. lia.
  - split; [apply found_sorted|]. intros i. apply found_interior.
Qed.

Lemma detected_indices_are_ordered_and_interior_witness :
  [fin 0 1; fin 3 1; fin 1 1; fin 2 1; fin 0 1] ≠ []
  ∧ ∃ r, detect LamPE [fin 0 1; fin 3 1; fin 1 1; fin 2 1; fin 0 1] = Ok r
      ∧ StronglySorted lt r
      ∧ ∀ i, i ∈ r ->
             (0 < i
              ∧ i + 1 < length [fin 0 1; fin 3 1; fin 1 1; fin 2 1; fin 0 1])%nat.
Proof.
  split; [discriminate|].
  apply (detected_indices_are_ordered_and_interior LamPE). discriminate.
Defined.

(** ** Min-max scaling *)





(** In binary64 the range of finite features can be infinite: on
    [-2^1023], [2^1023] and 0 the scaled values are 0, NaN and 0. *)
Lemma normalize_features_overflow :
  Forall (fun x => PrimFloat.is_finite x = true) F64.far_features
  ∧ F64.normalize_features F64.far_features
    = Ok [PrimFloat.zero; PrimFloat.nan; PrimFloat.zero].
Proof. split; [by repeat constructor|by vm_compute]. Qed.



(** ** The voltage window and the cutoff gate *)

Lemma Qclt_irreflexive (q : Qc) : ¬ q < q.
Proof. intros H. exact (Qclt_not_eq _ _ H eq_refl). Qed.

Lemma inside_nan (lo hi : num) : inside lo hi NaN = false.
Proof. unfold inside. by destruct lo. Qed.

(** X7.  Without a usable [voltage_window] setting
    [apply_voltage_window] returns [None].  With a window [(lo, hi)] it
    returns an array as long as the data in which every sample strictly
    inside the window is kept and every other sample, the bounds
    included, is NaN; the time axis plays no part, and windowing the
    result again changes nothing. *)
Theorem voltage_window_marks_gaps
    (config : SOHConfig) (data time : list num) :
  match voltage_window config with
  | None => SOH.apply_voltage_window config data time = Ok PNone
  | Some (lo, hi) =>
      ∃ out,
        SOH.apply_voltage_window config data time = Ok (PArr out)
        ∧ length out = length data
        ∧ (∀ i x, data !! i = Some x ->
                  out !! i = Some (if inside lo hi x then x else NaN))
        ∧ inside lo hi lo = false ∧ inside lo hi hi = false
        ∧ (∀ time', SOH.apply_voltage_window config out time'
                    = Ok (PArr out))
  end.
Proof.
  unfold SOH.apply_voltage_window.
  destruct (voltage_window config) as [[lo hi]|]; [|done].
  cbn [config_get mbind result_bind try_except].
  eexists. split; [reflexivity|]. split; [by rewrite length_fmap|].
  split.
  { intros i x Hi. by rewrite list_lookup_fmap, Hi. }
  split.
  { unfold inside, Num.gtb. destruct lo as [q| | |]; try done. cbn.
    rewrite bool_decide_eq_false_2; [done|]. apply Qclt_irreflexive. }
  split.
  { unfold inside. destruct hi as [q| | |]; cbn;
      rewrite ?andb_false_r; try done.
    rewrite bool_decide_eq_false_2; [by rewrite andb_false_r|].
    apply Qclt_irreflexive. }
  intros time'. do 2 f_equal. rewrite <- list_fmap_compose.
  apply list_fmap_ext. intros i x _. cbn [compose].
  fold (inside lo hi x). destruct (inside lo hi x) eqn:Hx.
  - fold (inside lo hi x). by rewrite Hx.
  - fold (inside lo hi NaN). by rewrite inside_nan.
Qed.






(** ** Stored measurements: validity, trends and aging *)

Lemma ltb_zero_fin (q : Qc) : (Fin q <? of_Z 0)%num = false <-> 0 <= q.
Proof.
  cbn. change (Q2Qc (inject_Z 0)) with 0. rewrite bool_decide_eq_false.
  split; [apply Qcnot_lt_le|apply Qcle_not_lt].
Qed.

Lemma gtb_one_fin (q : Qc) : (Fin q >? of_Z 1)%num = false <-> q <= 1.
Proof.
  unfold Num.gtb. cbn. change (Q2Qc (inject_Z 1)) with 1.
  rewrite bool_decide_eq_false.
  split; [apply Qcnot_lt_le|apply Qcle_not_lt].
Qed.

(** X9.  A measurement with finite attributes is valid exactly when its
    SOH lies in [0, 1] and its capacity and energy are not negative; a
    measurement lacking an attribute is invalid; and NaN attributes pass,
    since no comparison with NaN holds. *)
Theorem measurement_validity (t : Z) (s c e : Qc) :
  (Database.validate_measurement (measurement t (Fin s) (Fin c) (Fin e))
   = true
   <-> 0 <= s ∧ s <= 1 ∧ 0 <= c ∧ 0 <= e)
  ∧ Database.validate_measurement (measurement t NaN NaN NaN) = true
  ∧ (∀ m, Database.timestamp m = None ∨ Database.soh m = None
          ∨ Database.capacity m = None ∨ Database.energy m = None ->
          Database.validate_measurement m = false).
Proof.
  split; [|split; [done|]].
  - unfold Database.validate_measurement, measurement. cbn [Database.timestamp
      Database.soh Database.capacity Database.energy].
    rewrite <- ltb_zero_fin, <- gtb_one_fin, <- (ltb_zero_fin c),
      <- (ltb_zero_fin e).
    destruct (Fin s <? of_Z 0)%num, (Fin s >? of_Z 1)%num,
      (Fin c <? of_Z 0)%num, (Fin e <? of_Z 0)%num; cbn [orb];
      intuition congruence.
  - intros [tm sm cm em] H. unfold Database.validate_measurement.
    cbn in *. destruct H as [-> | [-> | [-> | ->]]]; repeat case_match; done.
Qed.

Lemma inject_pos (k : nat) : 0 < Q2Qc (inject_Z (Z.of_nat (S k))).
Proof.
  unfold Qclt. cbn [this Q2Qc]. rewrite !Qred_correct.
  unfold Qlt, inject_Z. cbn [Qnum Qden]. lia.
Qed.

Lemma ltb_trans (a b c : num) :
  (a <? b)%num = true -> (b <? c)%num = true -> (a <? c)%num = true.
Proof.
  destruct a as [p| | |], b as [q| | |], c as [r| | |]; cbn; try done.
  rewrite !bool_decide_eq_true. apply Qclt_trans.
Qed.

Lemma all_decreasing_ends (vs : list (option num)) :
  (2 <= length vs)%nat ->
  Database.all_decreasing vs = Ok true ->
  ∃ f l, head vs = Some (Some f) ∧ last vs = Some (Some l)
         ∧ (l <? f)%num = true.
Proof.
  induction vs as [|p [|c rest] IH]; intros Hn Hall; simpl in Hn; try lia.
  cbn [Database.all_decreasing] in Hall.
  destruct c as [c|], p as [p|]; try done.
  destruct (c <? p)%num eqn:Hcp; [|done].
  destruct rest as [|c' rest].
  - exists p, c. done.
  - destruct IH as (f & l & Hf & Hl & Hlt); [simpl; lia|done|].
    simpl in Hf. injection Hf as <-.
    exists p, l. split; [done|]. split; [exact Hl|].
    by apply (ltb_trans l c p).
Qed.

Lemma trend_negative (l f : num) (k : nat) :
  (l <? f)%num = true ->
  ((l - f) / of_Z (Z.of_nat (S k)) <? of_Z 0)%num = true.
Proof.
  intros Hlt. pose proof (inject_pos k) as Hpos.
  assert (Hnz : Q2Qc (inject_Z (Z.of_nat (S k))) ≠ 0).
  { intros Hz. rewrite Hz in Hpos. by apply Qclt_irreflexive in Hpos. }
  assert (Hnneg : ¬ Q2Qc (inject_Z (Z.of_nat (S k))) < 0).
  { intros Hneg. apply (Qclt_irreflexive 0). by apply Qclt_trans with
      (Q2Qc (inject_Z (Z.of_nat (S k)))). }
  unfold of_Z.
  destruct l as [p| | |], f as [q| | |]; try done.
  - cbn in Hlt. apply bool_decide_eq_true in Hlt.
    rewrite sub_fin, div_fin by done. cbn. apply bool_decide_eq_true_2.
    change (Q2Qc (inject_Z 0)) with 0.
    revert Hpos Hlt. generalize (Q2Qc (inject_Z (Z.of_nat (S k)))).
    intros n Hpos Hlt. unfold Qclt in *.
    unfold Qcdiv, Qcmult, Qcinv, Qcminus, Qcplus, Qcopp. simpl.
    rewrite !Qred_correct. change (?a * / ?b)%Q with (a / b)%Q.
    apply Qlt_shift_div_r; [done|]. lra.
  - cbn. by rewrite bool_decide_eq_false_2.
  - cbn. by rewrite bool_decide_eq_false_2.
  - cbn. by rewrite bool_decide_eq_false_2.
Qed.

Lemma endpoint_trend_decreasing (vs : list (option num)) :
  (2 <= length vs)%nat ->
  Database.all_decreasing vs = Ok true ->
  ∃ t, Database.endpoint_trend vs = Ok t ∧ (t <? of_Z 0)%num = true.
Proof.
  intros Hn Hall.
  destruct (all_decreasing_ends vs Hn Hall) as (f & l & Hf & Hl & Hlt).
  unfold Database.endpoint_trend. rewrite Hf, Hl. eexists.
  split; [done|].
  replace (Z.of_nat (length vs) - 1)%Z with (Z.of_nat (S (length vs - 2)))
    by lia.
  by apply trend_negative.
Qed.

(** X11.  [detect_aging_patterns] answers "Insufficient data" for fewer
    than five measurements.  Whenever it reports an aging pattern, there
    are at least five measurements and [calculate_trends] on the same
    measurements succeeds with a negative SOH, capacity and energy
    trend. *)
Theorem aging_pattern_means_negative_trends
    (ms : list Database.Measurement) (message : string) :
  Database.detect_aging_patterns ms = Ok (true, message) ->
  (5 <= length ms)%nat
  ∧ message = "Aging pattern detected"
  ∧ (∃ ts tc te,
       Database.calculate_trends ms
       = Ok (<["energy" := te]> (<["capacity" := tc]> {["soh" := ts]}))
       ∧ (ts <? of_Z 0)%num = true ∧ (tc <? of_Z 0)%num = true
       ∧ (te <? of_Z 0)%num = true)
  ∧ (∀ short, (length short < 5)%nat ->
              Database.detect_aging_patterns short
              = Ok (false, "Insufficient data")).
Proof.
  intros Hdet.
  assert (Hshort : ∀ short, (length short < 5)%nat ->
            Database.detect_aging_patterns short
            = Ok (false, "Insufficient data")).
  { intros short Hs. unfold Database.detect_aging_patterns.
    by rewrite bool_decide_eq_true_2. }
  unfold Database.detect_aging_patterns in Hdet.
  case_bool_decide as Hn; [done|].
  destruct (Database.all_decreasing (Database.soh <$> ms))
    as [bs|] eqn:Hs; [|done].
  destruct (Database.all_decreasing (Database.capacity <$> ms))
    as [bc|] eqn:Hc; [|done].
  destruct (Database.all_decreasing (Database.energy <$> ms))
    as [be|] eqn:He; [|done].
  cbn [mbind result_bind] in Hdet.
  destruct bs, bc, be; cbn [andb] in Hdet; try done.
  injection Hdet as <-.
  split; [lia|]. split; [done|]. split; [|exact Hshort].
  destruct (endpoint_trend_decreasing (Database.soh <$> ms))
    as (ts & Hts & Hns); [rewrite length_fmap; lia|done|].
  destruct (endpoint_trend_decreasing (Database.capacity <$> ms))
    as (tc & Htc & Hnc); [rewrite length_fmap; lia|done|].
  destruct (endpoint_trend_decreasing (Database.energy <$> ms))
    as (te & Hte & Hne); [rewrite length_fmap; lia|done|].
  exists ts, tc, te. split; [|done].
  unfold Database.calculate_trends.
  rewrite bool_decide_eq_false_2 by lia. cbv zeta.
  by rewrite Hts, Htc, Hte.
Qed.

Lemma aging_pattern_means_negative_trends_witness :
  Database.detect_aging_patterns steady_measurements
  = Ok (true, "Aging pattern detected")
  ∧ (5 <= length steady_measurements)%nat
  ∧ "Aging pattern detected" = "Aging pattern detected"
  ∧ (∃ ts tc te,
       Database.calculate_trends steady_measurements
       = Ok (<["energy" := te]> (<["capacity" := tc]> {["soh" := ts]}))
       ∧ (ts <? of_Z 0)%num = true ∧ (tc <? of_Z 0)%num = true
       ∧ (te <? of_Z 0)%num = true)
  ∧ (∀ short, (length short < 5)%nat ->
              Database.detect_aging_patterns short
              = Ok (false, "Insufficient data")).
Proof.
  assert (H : Database.detect_aging_patterns steady_measurements
              = Ok (true, "Aging pattern detected")) by (vm_compute; done).
  split; [exact H|].
  exact (aging_pattern_means_negative_trends steady_measurements _ H).
Defined.

Lemma buffer_data_length (buffer : list Acquisition.SensorData) x :
  (length buffer <= Acquisition.BUFFER_SIZE)%nat ->
  (length (Acquisition.buffer_data buffer x)
   <= Acquisition.BUFFER_SIZE)%nat.
Proof.
  intros Hb. unfold Acquisition.buffer_data. cbv zeta.
  case_bool_decide as Hlen; rewrite ?length_drop, length_app in *;
    simpl in *; lia.
Qed.

Lemma buffer_data_drop (buffer : list Acquisition.SensorData) x :
  (length buffer <= Acquisition.BUFFER_SIZE)%nat ->
  Acquisition.buffer_data buffer x
  = drop (length (buffer ++ [x]) - Acquisition.BUFFER_SIZE) (buffer ++ [x]).
Proof.
  intros Hb. unfold Acquisition.buffer_data. cbv zeta.
  case_bool_decide as Hlen; rewrite length_app in *; simpl in *.
  - by replace (length buffer + 1 - Acquisition.BUFFER_SIZE)%nat
      with 1%nat by lia.
  - by replace (length buffer + 1 - Acquisition.BUFFER_SIZE)%nat
      with 0%nat by lia.
Qed.

(** X12.  Starting from a buffer within the size limit, buffering the
    samples [xs] one after the other leaves the last [BUFFER_SIZE]
    elements of the old buffer followed by [xs]: the oldest samples are
    the ones dropped, the order is kept, and the buffer never holds more
    than [BUFFER_SIZE] samples. *)
Theorem buffer_keeps_most_recent_samples
    (buffer xs : list Acquisition.SensorData) :
  (length buffer <= Acquisition.BUFFER_SIZE)%nat ->
  foldl Acquisition.buffer_data buffer xs
  = drop (length (buffer ++ xs) - Acquisition.BUFFER_SIZE) (buffer ++ xs)
  ∧ (length (foldl Acquisition.buffer_data buffer xs)
     <= Acquisition.BUFFER_SIZE)%nat.
Proof.
  revert buffer. induction xs as [|x xs IH]; intros buffer Hb.
  - cbn [foldl]. rewrite app_nil_r.
    replace (length buffer - Acquisition.BUFFER_SIZE)%nat with 0%nat by lia.
    done.
  - cbn [foldl].
    destruct (IH (Acquisition.buffer_data buffer x)
                (buffer_data_length buffer x Hb)) as [Heq Hlen].
    split; [|exact Hlen].
    rewrite Heq, (buffer_data_drop buffer x Hb).
    rewrite length_app, length_drop, !length_app. cbn [length].
    assert (length buffer + 1 - Acquisition.BUFFER_SIZE
            <= length (buffer ++ [x]))%nat as Hle
      by (rewrite length_app; simpl; lia).
    rewrite <- (drop_app_le _ _ _ Hle), drop_drop, <- app_assoc.
    cbn [app]. f_equal. lia.
Qed.

Lemma buffer_keeps_most_recent_samples_witness :
  let x := {| Acquisition.timestamp := fin 0 1;
              Acquisition.voltage := fin 37 10;
              Acquisition.current := fin 2 1;
              Acquisition.temperature := fin 25 1 |} in
  (length [x] <= Acquisition.BUFFER_SIZE)%nat
  ∧ foldl Acquisition.buffer_data [x] [x; x]
    = drop (length ([x] ++ [x; x]) - Acquisition.BUFFER_SIZE)
           ([x] ++ [x; x])
  ∧ (length (foldl Acquisition.buffer_data [x] [x; x])
     <= Acquisition.BUFFER_SIZE)%nat.
Proof.
  intros x. split; [unfold Acquisition.BUFFER_SIZE; simpl; lia|].
  apply (buffer_keeps_most_recent_samples [x] [x; x]).
  unfold Acquisition.BUFFER_SIZE. simpl. lia.
Defined.

(** X13.  [validate_measurement_conditions] rejects a dictionary exactly
    when [calculate_velocity] would raise [KeyError] on it.  On a
    dictionary it accepts, the velocity is [voltage * current /
    temperature], except that a zero temperature raises
    [ZeroDivisionError]: the validation does not look at the values. *)
Theorem validation_guards_velocity_lookups (mc : gmap string num) :
  (Analyzer.validate_measurement_conditions mc = false
   <-> Analyzer.calculate_velocity mc = Analyzer.RaisesKeyError)
  ∧ (Analyzer.validate_measurement_conditions mc = true ->
     ∃ t v c,
       mc !! "temperature" = Some t ∧ mc !! "voltage" = Some v
       ∧ mc !! "current" = Some c
       ∧ Analyzer.calculate_velocity mc
         = if (t =? of_Z 0)%num then Analyzer.RaisesZeroDivisionError
           else Analyzer.Returns (v * c / t)%num).
Proof.
  unfold Analyzer.validate_measurement_conditions,
    Analyzer.calculate_velocity.
  cbn [forallb].
  destruct (mc !! "temperature") as [t|] eqn:Ht;
    destruct (mc !! "voltage") as [v|] eqn:Hv;
    destruct (mc !! "current") as [c|] eqn:Hc;
    repeat (rewrite bool_decide_eq_true_2 by (by eexists));
    repeat (rewrite (bool_decide_eq_false_2 (is_Some None))
              by (by intros [? ?]));
    cbn [andb]; try (split; [done|done]).
  split.
  - split; [done|]. by destruct (t =? of_Z 0)%num.
  - intros _. by exists t, v, c.
Qed.

Lemma validation_guards_velocity_lookups_witness :
  let mc : gmap string num :=
    <["current" := fin 10 1]>
      (<["voltage" := fin 12 1]> {["temperature" := fin 25 1]}) in
  Analyzer.validate_measurement_conditions mc = true
  ∧ ∃ t v c,
      mc !! "temperature" = Some t ∧ mc !! "voltage" = Some v
      ∧ mc !! "current" = Some c
      ∧ Analyzer.calculate_velocity mc
        = if (t =? of_Z 0)%num then Analyzer.RaisesZeroDivisionError
          else Analyzer.Returns (v * c / t)%num.
Proof.
  intros mc.
  assert (H : Analyzer.validate_measurement_conditions mc = true)
    by (vm_compute; reflexivity).
  split; [exact H|].
  exact (proj2 (validation_guards_velocity_lookups mc) H).
Defined.

(** X14.  With its lock free, [update_voltage_ranges] never returns when
    the handler's parameters are not loaded ([None], as the constructor
    leaves them, or empty): it takes the lock and then calls
    [load_parameters], which waits for the same lock.  With a non-empty
    dictionary loaded it returns with the lock released and the ranges
    stored under ['voltage_range'], and the file holds the new
    dictionary when it could be opened for writing.  [load_parameters]
    called on its own does not wait. *)
Theorem update_voltage_ranges_waits_for_its_own_lock
    {V : Type} (writable : string -> bool)
    (self : @Handler.ConfigHandler V) (fs : Handler.files) (ranges : V) :
  Handler.lock self = false ->
  (Handler.falsy (Handler.parameters self) = true ->
   Handler.update_voltage_ranges writable self fs ranges = Handler.Blocks)
  ∧ (∀ d, Handler.parameters self = Some d -> d ≠ ∅ ->
       let d' := <["voltage_range" := ranges]> d in
       let name := Handler.parameters_file self in
       Handler.update_voltage_ranges writable self fs ranges
       = Handler.Returns ()
           {| Handler.parameters_file := name;
              Handler.parameters := Some d';
              Handler.lock := false |}
           (if writable name then <[name := Handler.Object d']> fs
            else fs))
  ∧ Handler.load_parameters self fs ≠ Handler.Blocks.
Proof.
  intros Hfree. split; [|split].
  - intros Hfalsy. unfold Handler.update_voltage_ranges.
    rewrite Hfree. cbv zeta. cbn [Handler.set_lock Handler.parameters].
    rewrite Hfalsy. done.
  - intros d Hd Hne d' name.
    unfold Handler.update_voltage_ranges, Handler.store_voltage_ranges.
    rewrite Hfree. cbv zeta.
    cbn [Handler.set_lock Handler.set_parameters Handler.parameters
         Handler.parameters_file Handler.lock].
    rewrite Hd. cbn [Handler.falsy].
    rewrite bool_decide_eq_false_2 by (by rewrite map_size_empty_iff).
    fold name. fold d'. by destruct (writable name).
  - unfold Handler.load_parameters. rewrite Hfree. cbv zeta.
    cbn [Handler.set_lock Handler.set_parameters Handler.parameters
         Handler.parameters_file Handler.lock].
    destruct (fs !! Handler.parameters_file self) as [[|d]|]; try done.
    by destruct (Handler.falsy (Some d)).
Qed.

Lemma update_voltage_ranges_waits_for_its_own_lock_witness :
  let self : @Handler.ConfigHandler (list (num * num)) :=
    Handler.__init__ "measurement_parameters.json" in
  Handler.lock self = false
  ∧ Handler.update_voltage_ranges (fun _ => true) self ∅
      [(fin 3 1, fin 42 10)]
    = Handler.Blocks.
Proof.
  intros self. split; [reflexivity|].
  apply (update_voltage_ranges_waits_for_its_own_lock
           (fun _ => true) self ∅ [(fin 3 1, fin 42 10)]);
    reflexivity.
Defined.
